(** * car_ans/spider_all_detials.py: extraction, normalisation, aggregation

    A shallow embedding of the scraper's core: the comparison-table
    extractor [parse_models_config], the retrying [fetch_data], the
    pending-identifier resolver [get_unique_ids] and the aggregation and
    write phase of [main].

    Python strings are sequences of Unicode code points and are modelled
    as [list N]; dictionaries used as maps are [gmap]s keyed by such
    strings; [try]/[except] is an explicit outcome type. *)

From Stdlib Require Import String Ascii QArith Qpower Lqa DecimalPos.
From stdpp Require Import gmap list sorting.

Local Open Scope N_scope.

(** ** Python strings *)

Abbreviation pystr := (list N).

Module Literal.

(** Source literals are written in this file as UTF-8 text; [py] decodes
    the bytes of a literal into its code points. *)
Fixpoint utf8 (bs : list N) : list N :=
  match bs with
  | [] => []
  | b0 :: r0 =>
      if b0 <? 0x80 then b0 :: utf8 r0
      else
        match r0 with
        | [] => []
        | b1 :: r1 =>
            if b0 <? 0xE0 then ((b0 - 0xC0) * 0x40 + (b1 - 0x80)) :: utf8 r1
            else
              match r1 with
              | [] => []
              | b2 :: r2 =>
                  if b0 <? 0xF0
                  then ((b0 - 0xE0) * 0x1000 + (b1 - 0x80) * 0x40 + (b2 - 0x80))
                         :: utf8 r2
                  else
                    match r2 with
                    | [] => []
                    | b3 :: r3 =>
                        ((b0 - 0xF0) * 0x40000 + (b1 - 0x80) * 0x1000
                         + (b2 - 0x80) * 0x40 + (b3 - 0x80)) :: utf8 r3
                    end
              end
        end
  end.

Definition py (s : string) : pystr :=
  utf8 (map N_of_ascii (list_ascii_of_string s)).

End Literal.
Import Literal.

(** The string constants of the source. *)
Definition k_model : pystr := Eval vm_compute in py "型号".
Definition k_price : pystr := Eval vm_compute in py "价格".
Definition k_energy : pystr := Eval vm_compute in py "能源类型".
Definition k_ID : pystr := Eval vm_compute in py "ID".
Definition k_id : pystr := Eval vm_compute in py "id".
Definition unknown_model : pystr := Eval vm_compute in py "未知车型".
Definition NA : pystr := Eval vm_compute in py "N/A".
Definition wan : pystr := Eval vm_compute in py "万".
Definition unknown_label : pystr := Eval vm_compute in py "未知".
Definition marker : pystr := Eval vm_compute in py "参数配置".
Definition dot_csv : pystr := Eval vm_compute in py ".csv".


(** ** Exceptions

    The exception classes the modelled code can meet. [RequestError]
    stands for whatever the transport raises (timeouts, connection
    errors); all of them derive from [Exception]. *)
Inductive exn : Type :=
| KeyError
| ValueError
| TypeError
| AttributeError
| IndexError
| UnicodeEncodeError
| RequestError.

Inductive outcome (A : Type) : Type :=
| Returned (a : A)
| Raised (e : exn).
Arguments Returned {A} a.
Arguments Raised {A} e.

#[global] Instance outcome_ret : MRet outcome := @Returned.
#[global] Instance outcome_bind : MBind outcome := fun A B f m =>
  match m with
  | Returned a => f a
  | Raised e => Raised e
  end.

(** [try: body except <classes>: handler]; an exception outside the
    listed classes propagates. *)
Definition try_except {A} (body : outcome A) (catches : exn → bool)
    (handler : exn → outcome A) : outcome A :=
  match body with
  | Returned a => Returned a
  | Raised e => if catches e then handler e else Raised e
  end.

(** [except Exception]: every member of [exn] derives from it. *)
Definition Exception (e : exn) : bool := true.

(** [except (KeyError, ValueError)] *)
Definition KeyError_or_ValueError (e : exn) : bool :=
  match e with
  | KeyError | ValueError => true
  | _ => false
  end.

(** A [for] loop whose body may raise: the first exception ends the loop. *)
Fixpoint for_each {A S} (xs : list A) (body : S → A → outcome S) (s : S) : outcome S :=
  match xs with
  | [] => Returned s
  | x :: xs' => s' ← body s x; for_each xs' body s'
  end.

(** [enumerate(xs)] *)
Definition enumerate {A} (xs : list A) : list (nat * A) := imap (fun i x => (i, x)) xs.

(** ** The interpreter's character tables

    [str.isdigit], [int] and the regular-expression class [\d] consult
    Unicode properties. The ASCII range is written out below; the
    properties of the code points beyond it are a table of the interpreter
    and are taken as a parameter. *)
Record unicode_tables : Type := {
  (** decimal value of a non-ASCII code point of category Nd *)
  uni_decimal : N → option N;
  (** [str.isdigit] on a non-ASCII code point *)
  uni_isdigit : N → bool;
  (** [str.isspace] on a non-ASCII code point *)
  uni_isspace : N → bool
}.

(** The table that knows no digit or space outside ASCII. *)
Definition ascii_only : unicode_tables :=
  {| uni_decimal := fun _ => None; uni_isdigit := fun _ => false; uni_isspace := fun _ => false |}.

Definition is_ascii (c : N) : bool := c <? 0x80.
Definition ascii_digit (c : N) : bool := (0x30 <=? c) && (c <=? 0x39).
Definition ascii_space (c : N) : bool := ((0x09 <=? c) && (c <=? 0x0D)) || (c =? 0x20).

(** Lookup that raises: [d[key]]. *)
Definition getitem {V} (d : gmap pystr V) (key : pystr) : outcome V :=
  match d !! key with
  | Some v => Returned v
  | None => Raised KeyError
  end.

(** Attribute access or method call on a value that may be [None]. *)
Definition attr_of {A} (o : option A) : outcome A :=
  match o with
  | Some a => Returned a
  | None => Raised AttributeError
  end.

(** [needle in s] on strings. *)
Fixpoint str_in (needle s : pystr) : bool :=
  bool_decide (needle `prefix_of` s)
  || match s with
     | [] => false
     | _ :: s' => str_in needle s'
     end.

(** [s.endswith(suffix)] *)
Definition endswith (s suffix : pystr) : bool := bool_decide (suffix `suffix_of` s).

(** [re.sub(cls, repl, s)] for a pattern [cls] that is one character
    class: every character of the class is a match of length one. *)
Definition re_sub_class (cls : N → bool) (repl s : pystr) : pystr :=
  s ≫= (fun c => if cls c then repl else [c]).

(** The class [[-●○※]]. *)
Definition glyph (c : N) : bool :=
  ((0xE600 <=? c) && (c <=? 0xE6FF)) || (c =? 0x25CF) || (c =? 0x25CB) || (c =? 0x203B).

Definition strip_glyphs (text : pystr) : pystr := re_sub_class glyph [] text.

(** [str(n)] for an integer. *)
Fixpoint uint_chars (u : Decimal.uint) : pystr :=
  match u with
  | Decimal.Nil => []
  | Decimal.D0 u => 0x30 :: uint_chars u
  | Decimal.D1 u => 0x31 :: uint_chars u
  | Decimal.D2 u => 0x32 :: uint_chars u
  | Decimal.D3 u => 0x33 :: uint_chars u
  | Decimal.D4 u => 0x34 :: uint_chars u
  | Decimal.D5 u => 0x35 :: uint_chars u
  | Decimal.D6 u => 0x36 :: uint_chars u
  | Decimal.D7 u => 0x37 :: uint_chars u
  | Decimal.D8 u => 0x38 :: uint_chars u
  | Decimal.D9 u => 0x39 :: uint_chars u
  end.

Definition py_str (n : Z) : pystr :=
  match n with
  | Z0 => [0x30]
  | Zpos p => uint_chars (Pos.to_uint p)
  | Zneg p => 0x2D :: uint_chars (Pos.to_uint p)
  end.

(** Leading white space is skipped. *)
Fixpoint skip_spaces (s : pystr) : pystr :=
  match s with
  | c :: s' => if ascii_space c then skip_spaces s' else s
  | [] => []
  end.

(** Where the digit scanner of [int] stands. *)
Inductive int_state : Type := AtStart | AfterDigit | AfterUnderscore.

(** The digits of a base-10 literal: single underscores are allowed
    between digits, white space may follow the last digit. *)
Fixpoint int_digits (s : pystr) (st : int_state) (acc : N) : option N :=
  match s with
  | [] => match st with AfterDigit => Some acc | _ => None end
  | c :: s' =>
      if ascii_digit c then int_digits s' AfterDigit (10 * acc + (c - 0x30))
      else if c =? 0x5F then
        match st with
        | AfterDigit => int_digits s' AfterUnderscore acc
        | _ => None
        end
      else
        match st with
        | AfterDigit => if forallb ascii_space (c :: s') then Some acc else None
        | _ => None
        end
  end.

Section Builtins.

Context (U : unicode_tables).

(** [\d] of a [str] pattern: any decimal digit. *)
Definition re_digit (c : N) : bool :=
  if is_ascii c then ascii_digit c else bool_decide (is_Some (uni_decimal U c)).

(** The class [[^\d\.万]]. *)
Definition not_price_char (c : N) : bool :=
  negb (re_digit c || (c =? 0x2E) || (c =? 0x4E07)).

(** [s.isdigit()] *)
Definition char_isdigit (c : N) : bool :=
  if is_ascii c then ascii_digit c else uni_isdigit U c.

Definition isdigit (s : pystr) : bool :=
  bool_decide (s ≠ []) && forallb char_isdigit s.

(** [int(s)]: non-ASCII spaces and decimal digits are first mapped to
    their ASCII counterparts, any other non-ASCII character to [?]; then
    white space, an optional sign and the digits. (The interpreter's
    configurable cap on the number of digits is left out.) *)
Definition int_char (c : N) : N :=
  if is_ascii c then c
  else if uni_isspace U c then 0x20
  else match uni_decimal U c with
       | Some d => 0x30 + d
       | None => 0x3F
       end.

Definition py_int (s : pystr) : outcome Z :=
  let s := skip_spaces (int_char <$> s) in
  let '(negative, s) :=
    match s with
    | c :: s' =>
        if c =? 0x2B then (false, s')
        else if c =? 0x2D then (true, s')
        else (false, s)
    | [] => (false, s)
    end in
  match int_digits s AtStart 0 with
  | Some n => Returned (if negative then (- Z.of_N n)%Z else Z.of_N n)
  | None => Raised ValueError
  end.

(** [int(v)] for a value that may be [None]. *)
Definition int_of (v : option pystr) : outcome Z :=
  match v with
  | Some s => py_int s
  | None => Raised TypeError
  end.

End Builtins.

(** ** Configuration *)

Definition retry_times : nat := 3.

Definition ENERGY_TYPE_MAP : gmap pystr (list pystr) :=
  list_to_map
    [ (py "纯电", [py "electric_consumption"; py "battery_capacity"; py "cltc_recharge_mileage"]);
      (py "汽油", [py "engine_max_horsepower"; py "fuel_consumption"; py "displacement"]);
      (py "油电混合", [py "engine_max_horsepower"; py "battery_capacity"; py "electric_consumption"]);
      (py "插电式", [py "engine_max_horsepower"; py "battery_capacity"; py "electric_consumption"]);
      (py "增程式", [py "range_extender_type"; py "battery_capacity"; py "electric_consumption"]) ].

Definition ENERGY_TYPES : gmap pystr pystr :=
  list_to_map
    [ (py "纯电", py "electric");
      (py "汽油", py "fuel");
      (py "油电混合", py "hybrid");
      (py "插电式", py "plug-in");
      (py "增程式", py "range-extender");
      (py "未知", py "unknown") ].

Definition get_energy_specific_fields (energy_type : pystr) : list pystr :=
  default [] (ENERGY_TYPE_MAP !! energy_type).

(** ** The parsed page

    The extractor sees the page only through selector queries. A
    [document] holds what those queries return, with the text of each
    selected element as [get_text] gives it. *)

(** A row [div.table_row__yVX1h[data-row-anchor]] of a configuration
    section: the text of its [.cell_label__ZtXlw] element ([None] when
    [select_one] finds none) and the texts of its [div.cell_normal__37nRi]
    cells. *)
Record table_row : Type := {
  row_label : option pystr;
  row_cells : list pystr
}.

Record document : Type := {
  (** [find('div', class_='table_head__FNAvn')], and inside it the columns
      [div.table_is-head-col__1sAQG:not(:first-child)], each with the text
      of its name element [a.cell_car__28WzZ, div.cell_car__28WzZ] if it
      has one *)
  doc_header : option (list (option pystr));
  (** the first [div.cell_official-price__1O2th] if any, its enclosing
      [div.table_row__yVX1h] if any, and the texts of the price cells of
      that row *)
  doc_price : option (option (list pystr));
  (** [div.table_root__14vH_:not(:first-child)], each with its anchored rows *)
  doc_sections : list (list table_row)
}.

(** A model record: attribute label to attribute value. *)
Abbreviation vehicle := (gmap pystr pystr).

(** ** parse_models_config *)

(** [models[idx][key] = value] *)
Definition setitem (models : list vehicle) (idx : nat) (key value : pystr)
    : outcome (list vehicle) :=
  match models !! idx with
  | Some model => Returned (<[idx := <[key := value]> model]> models)
  | None => Raised IndexError
  end.

(** Lines 92-97: the energy-type specific fields of one model. *)
Definition fill_specific_fields (model : vehicle) : vehicle :=
  let energy_type := default NA (model !! k_energy) in
  let specific_fields := get_energy_specific_fields energy_type in
  foldl (fun model field => <[field := default NA (model !! field)]> model)
        model specific_fields.

Section Extractor.

Context (U : unicode_tables).

(** [for idx, cell in enumerate(cells[:len(models)]): models[idx][key] = f(cell)] *)
Definition assign_cells (key : pystr) (f : pystr → pystr) (cells : list pystr)
    (models : list vehicle) : outcome (list vehicle) :=
  for_each (enumerate (take (length models) cells))
           (fun models '(idx, text) => setitem models idx key (f text))
           models.

(** Lines 69-72: the model names. *)
Definition assign_names (model_cols : list (option pystr)) (models : list vehicle)
    : outcome (list vehicle) :=
  for_each (enumerate model_cols)
    (fun models '(idx, name_tag) =>
       match name_tag with
       | Some text => setitem models idx k_model (strip_glyphs text)
       | None => Returned models
       end)
    models.

(** Lines 74-79: the official prices. *)
Definition assign_prices (price_row : option (option (list pystr)))
    (models : list vehicle) : outcome (list vehicle) :=
  match price_row with
  | None => Returned models
  | Some parent =>
      price_cells ← attr_of parent;
      assign_cells k_price
        (fun text => re_sub_class (not_price_char U) [] text ++ wan)
        price_cells models
  end.

(** Lines 83-90: the rows of one configuration section. *)
Definition assign_section (models : list vehicle) (section : list table_row)
    : outcome (list vehicle) :=
  for_each section
    (fun models row =>
       label ← attr_of (row_label row);
       assign_cells label strip_glyphs (row_cells row) models)
    models.

(** The body of the [try] block. *)
Definition parse_models_config_body (soup : document) : outcome (list vehicle) :=
  match doc_header soup with
  | None => Returned []
  | Some model_cols =>
      if decide (model_cols = []) then Returned []
      else
        let models : list vehicle :=
          fmap (M:=list)
            (fun _ => ({[ k_model := unknown_model; k_price := NA ]} : vehicle))
            model_cols in
        models ← assign_names model_cols models;
        models ← assign_prices (doc_price soup) models;
        models ← for_each (doc_sections soup) assign_section models;
        Returned (fmap (M:=list) fill_specific_fields models)
  end.

Definition parse_models_config (soup : document) : outcome (list vehicle) :=
  try_except (parse_models_config_body soup) Exception (fun e => Returned []).

End Extractor.

(** ** CSV files

    The tokenisation of the [csv] module is not modelled: a file is the
    table it holds, with a flag telling whether its bytes start with a
    byte-order mark. ([csv_rows] are the records that follow the header
    line; a blank line is the empty record.) *)
Record csv_file : Type := {
  csv_bom : bool;
  csv_header : list pystr;
  csv_rows : list (list pystr)
}.

(** The [encoding] argument of [open]. *)
Inductive encoding : Type := utf_8 | utf_8_sig.

(** The first record as [csv.reader] returns it. Decoding with [utf-8]
    keeps a byte-order mark as the character U+FEFF in front of the first
    field; [utf-8-sig] drops it. *)
Definition read_header (enc : encoding) (f : csv_file) : list pystr :=
  match enc, csv_bom f with
  | utf_8, true =>
      match csv_header f with
      | h :: t => (0xFEFF :: h) :: t
      | [] => [[0xFEFF]]
      end
  | _, _ => csv_header f
  end.

(** A row of [csv.DictReader]; a field the record is too short for holds
    [None] (the [restval]). Surplus values go under the key [None], which
    no string key can reach, and are left out. *)
Abbreviation reader_row := (gmap pystr (option pystr)).

Definition dict_row (fieldnames row : list pystr) : reader_row :=
  let d : reader_row :=
    foldl (fun d '(key, value) => <[key := Some value]> d) ∅ (zip fieldnames row) in
  foldl (fun d key => <[key := None]> d) d (drop (length row) fieldnames).

Definition DictReader (enc : encoding) (f : csv_file) : list reader_row :=
  dict_row (read_header enc f) <$> filter (fun row => row ≠ []) (csv_rows f).

(** [os.listdir]: the entries of a directory in the order the system
    lists them. *)
Abbreviation directory := (list (pystr * csv_file)).

(** [open(path, 'w')] followed by the writes: the entry is replaced, or
    created. *)
Fixpoint write_file (dir : directory) (fname : pystr) (f : csv_file) : directory :=
  match dir with
  | [] => [(fname, f)]
  | (name, old) :: rest =>
      if decide (name = fname) then (name, f) :: rest
      else (name, old) :: write_file rest fname f
  end.

(** [open(path, 'r')] *)
Fixpoint read_file (dir : directory) (fname : pystr) : option csv_file :=
  match dir with
  | [] => None
  | (name, f) :: rest => if decide (name = fname) then Some f else read_file rest fname
  end.

(** [sorted] on integers and on strings (code point order). *)
Fixpoint str_leb (a b : pystr) : bool :=
  match a, b with
  | [], _ => true
  | _ :: _, [] => false
  | x :: a', y :: b' => (x <? y) || ((x =? y) && str_leb a' b')
  end.

Definition str_le (a b : pystr) : Prop := str_leb a b = true.

#[global] Instance str_le_dec a b : Decision (str_le a b).
Proof. unfold str_le. apply _. Defined.

Definition sorted_ints (xs : list Z) : list Z := merge_sort Z.le xs.
Definition sorted_strs (xs : list pystr) : list pystr := merge_sort str_le xs.

(** ** get_unique_ids *)

Section Resolver.

Context (U : unicode_tables).

(** Lines 39-43: one manifest row. *)
Definition add_manifest_row (unique_ids : gset Z) (row : reader_row)
    : outcome (gset Z) :=
  try_except
    (value ← getitem row k_id;
     n ← int_of U value;
     Returned ({[ n ]} ∪ unique_ids))
    KeyError_or_ValueError
    (fun _ => Returned unique_ids).

(** Line 49: one row of the set comprehension. *)
Definition add_done_row (done_ids : gset Z) (row : reader_row) : outcome (gset Z) :=
  value ← getitem row k_ID;
  text ← attr_of value;
  if isdigit U text then
    n ← py_int U text;
    Returned ({[ n ]} ∪ done_ids)
  else Returned done_ids.

(** Lines 47-50: one directory entry. *)
Definition subtract_file (unique_ids : gset Z) (entry : pystr * csv_file)
    : outcome (gset Z) :=
  let '(fname, f) := entry in
  if endswith fname dot_csv then
    done_ids ← for_each (DictReader utf_8 f) add_done_row ∅;
    Returned (unique_ids ∖ done_ids)
  else Returned unique_ids.

(** [output_dir] is [None] when the path does not exist. *)
Definition get_unique_ids (input_csv : csv_file) (output_dir : option directory)
    : outcome (list Z) :=
  unique_ids ← for_each (DictReader utf_8 input_csv) add_manifest_row ∅;
  unique_ids ← match output_dir return outcome (gset Z) with
               | Some entries => for_each entries subtract_file unique_ids
               | None => Returned unique_ids
               end;
  Returned (sorted_ints (elements unique_ids)).

End Resolver.

(** ** fetch_data *)

(** What [requests.get] returns: [response.ok] and [response.text]. *)
Record response : Type := {
  resp_ok : bool;
  resp_text : pystr
}.

(** How one pass through the loop body ends. *)
Inductive step (A : Type) : Type :=
| Continue
| Return (a : A)
| Next.
Arguments Continue {A}.
Arguments Return {A} a.
Arguments Next {A}.

(** [0.5 ** attempt]; a power of one half is exact in binary floating
    point. *)
Definition backoff (attempt : nat) : Q := ((1 # 2) ^ Z.of_nat attempt)%Q.

(** What a call did: its result and the [sleep] calls it made, each with
    the attempt it followed. *)
Record fetched (A : Type) : Type := {
  fetch_outcome : outcome A;
  fetch_slept : list (nat * Q)
}.
Arguments fetch_outcome {A} _.
Arguments fetch_slept {A} _.

(** [any(res["型号"] != "未知车型" for res in results)] *)
Fixpoint any_named (results : list vehicle) : outcome bool :=
  match results with
  | [] => Returned false
  | res :: rest =>
      name ← getitem res k_model;
      if bool_decide (name ≠ unknown_model) then Returned true else any_named rest
  end.

Section Fetch.

Context (U : unicode_tables).
(** The HTML parser, a collaborator: page text to the queries' answers. *)
Context (BeautifulSoup : pystr → document).

(** Lines 115-126, the [try] block of one attempt. [reply] is what
    [requests.get] does at this attempt. *)
Definition attempt_body (reply : outcome response) (id : Z)
    : outcome (step (Z * option (list vehicle))) :=
  response ← reply;
  if negb (resp_ok response) || negb (str_in marker (resp_text response))
  then Returned Continue
  else
    let soup := BeautifulSoup (resp_text response) in
    results ← parse_models_config U soup;
    let results := fmap (M:=list) (insert k_ID (py_str id)) results in
    accepted ← (if bool_decide (0 < length results)%nat
                then any_named results else Returned false);
    if (accepted : bool) then Returned (Return (id, Some results)) else Returned Next.

(** Lines 113-132. [replies attempt] is the transport's answer at that
    attempt. *)
Fixpoint fetch_loop (replies : nat → outcome response) (id : Z) (attempts : list nat)
    (slept : list (nat * Q)) : fetched (Z * option (list vehicle)) :=
  match attempts with
  | [] => {| fetch_outcome := Returned (id, None); fetch_slept := slept |}
  | attempt :: rest =>
      match try_except (attempt_body (replies attempt) id) Exception
                       (fun e => Returned Next) with
      | Raised e => {| fetch_outcome := Raised e; fetch_slept := slept |}
      | Returned Continue => fetch_loop replies id rest slept
      | Returned (Return result) =>
          {| fetch_outcome := Returned result; fetch_slept := slept |}
      | Returned Next =>
          fetch_loop replies id rest (slept ++ [(attempt, backoff attempt)])
      end
  end.

Definition fetch_data (replies : nat → outcome response) (id : Z)
    : fetched (Z * option (list vehicle)) :=
  fetch_loop replies id (seq 0 retry_times) [].

End Fetch.

(** ** main *)

(** [all_data], a [defaultdict(list)] in insertion order, and
    [field_set]. *)
Record collector : Type := {
  all_data : list (pystr * list vehicle);
  field_set : gset pystr
}.

Definition empty_collector : collector := {| all_data := []; field_set := ∅ |}.

(** [all_data[energy].append(model)] *)
Fixpoint bucket_append (buckets : list (pystr * list vehicle)) (energy : pystr)
    (model : vehicle) : list (pystr * list vehicle) :=
  match buckets with
  | [] => [(energy, [model])]
  | (label, data) :: rest =>
      if decide (label = energy) then (label, data ++ [model]) :: rest
      else (label, data) :: bucket_append rest energy model
  end.

(** Lines 150-152. *)
Definition collect (c : collector) (model : vehicle) : collector :=
  {| all_data := bucket_append (all_data c)
                   (default unknown_label (model !! k_energy)) model;
     field_set := field_set c ∪ dom model |}.

Definition base_fields : list pystr := [k_ID; k_model; k_price; k_energy].

(** Lines 155-156, for the order [fields] in which the set is iterated. *)
Definition other_fields (fields : list pystr) : list pystr :=
  sorted_strs (filter (fun f => f ∉ base_fields) fields).

Definition all_fields (fields : list pystr) : list pystr :=
  base_fields ++ other_fields fields.

Definition car_data_ : pystr := Eval vm_compute in py "car_data_".
Definition unknown_tag : pystr := Eval vm_compute in py "unknown".

(** Lines 160-161; the name of the file inside [output_dir]. *)
Definition output_name (energy_type : pystr) : pystr :=
  let file_tag := default unknown_tag (ENERGY_TYPES !! energy_type) in
  car_data_ ++ file_tag ++ dot_csv.

(** [csv.DictWriter] with [extrasaction='ignore'] and the default
    [restval]: one value per field name, empty where the record lacks it. *)
Definition dict_to_list (fieldnames : list pystr) (rowdict : vehicle) : list pystr :=
  (fun key => default [] (rowdict !! key)) <$> fieldnames.

(** The files are opened with [encoding='utf-8-sig']. UTF-8 has no
    encoding for a surrogate code point (U+D800 to U+DFFF), which a
    Python string may hold: writing text with such a character raises
    [UnicodeEncodeError]. *)
Definition encodable (s : pystr) : bool :=
  forallb (fun c => negb ((0xD800 <=? c) && (c <=? 0xDFFF))) s.

(** One record of the file goes out in one call of [write]: whole, or
    not at all. *)
Definition record_encodable (record : list pystr) : bool :=
  forallb encodable record.

(** [writer.writerows(rows)]: the records written, up to the first that
    cannot be encoded, and how the call ends. *)
Fixpoint writerows (rows : list (list pystr)) : list (list pystr) * outcome unit :=
  match rows with
  | [] => ([], Returned tt)
  | row :: rest =>
      if record_encodable row
      then (row :: (writerows rest).1, (writerows rest).2)
      else ([], Raised UnicodeEncodeError)
  end.

(** What [open(path, 'w')] leaves before anything is written. *)
Definition empty_file : csv_file :=
  {| csv_bom := false; csv_header := []; csv_rows := [] |}.

(** Lines 163-166 for one bucket: the file as the [with] block leaves
    it, and how the block is left. The byte-order mark goes out with the
    first text that is encoded, so a header that cannot be encoded leaves
    the file empty. *)
Definition write_bucket_file (fieldnames : list pystr) (data : list vehicle)
    : csv_file * outcome unit :=
  if record_encodable fieldnames
  then ({| csv_bom := true;
           csv_header := fieldnames;
           csv_rows := (writerows (dict_to_list fieldnames <$> data)).1 |},
        (writerows (dict_to_list fieldnames <$> data)).2)
  else (empty_file, Raised UnicodeEncodeError).

(** Lines 159-166: the buckets are written in the order of [all_data];
    an exception ends the loop, the later buckets are not written. *)
Fixpoint write_all (fieldnames : list pystr) (dir : directory)
    (buckets : list (pystr * list vehicle)) : directory * outcome unit :=
  match buckets with
  | [] => (dir, Returned tt)
  | (energy_type, data) :: rest =>
      let written := write_bucket_file fieldnames data in
      let dir := write_file dir (output_name energy_type) written.1 in
      match written.2 with
      | Returned _ => write_all fieldnames dir rest
      | Raised e => (dir, Raised e)
      end
  end.

(** What a run did: how it ended, the identifiers it fetched, in order,
    and the output directory it left. *)
Record run : Type := {
  run_outcome : outcome unit;
  run_fetched : list Z;
  run_dir : directory
}.

Section Main.

Context (U : unicode_tables) (BeautifulSoup : pystr → document).

(** Lines 145-152. [net id attempt] is the transport's answer. *)
Fixpoint scan (net : Z → nat → outcome response) (ids : list Z) (c : collector)
    (done : list Z) : outcome collector * list Z :=
  match ids with
  | [] => (Returned c, done)
  | id :: rest =>
      match fetch_outcome (fetch_data U BeautifulSoup (net id) id) with
      | Raised e => (Raised e, done ++ [id])
      | Returned (_, results) =>
          let c := match results with
                   | Some models => if decide (models = []) then c
                                    else foldl collect c models
                   | None => c
                   end in
          scan net rest c (done ++ [id])
      end
  end.

(** [output_dir] is [None] when the directory does not exist yet;
    [os.makedirs] then creates it empty. The messages of [print] are left
    out: standard output is taken to accept them. *)
Definition main (input_csv : csv_file) (output_dir : option directory)
    (net : Z → nat → outcome response) : run :=
  let dir := default [] output_dir in
  match get_unique_ids U input_csv (Some dir) with
  | Raised e => {| run_outcome := Raised e; run_fetched := []; run_dir := dir |}
  | Returned ids =>
      if decide (ids = [])
      then {| run_outcome := Returned tt; run_fetched := []; run_dir := dir |}
      else
        match scan net ids empty_collector [] with
        | (Raised e, done) =>
            {| run_outcome := Raised e; run_fetched := done; run_dir := dir |}
        | (Returned c, done) =>
            let fieldnames := all_fields (elements (field_set c)) in
            let written := write_all fieldnames dir (all_data c) in
            {| run_outcome := written.2;
               run_fetched := done;
               run_dir := written.1 |}
        end
  end.

End Main.

(** * Vocabulary of the properties *)

(** The file a bucket's write leaves when nothing is raised. *)
Definition bucket_file (fieldnames : list pystr) (data : list vehicle) : csv_file :=
  {| csv_bom := true;
     csv_header := fieldnames;
     csv_rows := dict_to_list fieldnames <$> data |}.

Definition completed_bucket (fieldnames : list pystr) (dir : directory)
    (bucket : pystr * list vehicle) : directory :=
  write_file dir (output_name bucket.1) (bucket_file fieldnames bucket.2).

(** The directory a write phase leaves when nothing is raised. *)
Definition completed_write (fieldnames : list pystr) (dir : directory)
    (buckets : list (pystr * list vehicle)) : directory :=
  foldl (completed_bucket fieldnames) dir buckets.

(** A record all of whose keys and values can be encoded. *)
Definition vehicle_encodable (model : vehicle) : Prop :=
  map_Forall (fun key value => encodable key = true ∧ encodable value = true) model.

(** The number of model columns the header query discovers. *)
Definition model_cols_count (soup : document) : nat :=
  match doc_header soup with
  | Some model_cols => length model_cols
  | None => 0
  end.

(** The state of [models] between the steps: one record per column, each
    with a model name. *)
Definition models_ok (n : nat) (models : list vehicle) : Prop :=
  length models = n ∧ Forall (fun model => is_Some (model !! k_model)) models.

(** [mixed] is [text] with the characters of [marks] put in between, each
    list in its own order. *)
Inductive interleaved : pystr → pystr → pystr → Prop :=
| interleaved_nil : interleaved [] [] []
| interleaved_text c text marks mixed :
    interleaved text marks mixed → interleaved (c :: text) marks (c :: mixed)
| interleaved_mark c text marks mixed :
    interleaved text marks mixed → interleaved text (c :: marks) (c :: mixed).

(** A page with two model columns, the first with a decorated name. *)
Definition sample_page : document :=
  {| doc_header := Some [Some (py "●Model X※"); None];
     doc_price := Some (Some [py "12.5万起"; py "暂无"; py "9"]);
     doc_sections :=
       [[ {| row_label := Some k_energy;
             row_cells := [py "纯电"; py "汽油"; py "x"] |} ]] |}.

(** A page whose price element has no enclosing row. *)
Definition orphan_price_page : document :=
  {| doc_header := Some [Some (py "Model Y")];
     doc_price := Some None;
     doc_sections := [] |}.

(** A page without the header block. *)
Definition headless_page : document :=
  {| doc_header := None; doc_price := None; doc_sections := [] |}.

(** A record of an electric model from which the page gave the battery
    capacity only. *)
Definition sample_electric : vehicle :=
  {[ k_model := py "Model X"; k_energy := py "纯电";
     py "battery_capacity" := py "75kWh"; py "座位数" := py "5" ]}.

(** The tagged extraction of one attempt, when the page came back with a
    good status and carries the marker text. *)
Definition attempt_results (U : unicode_tables) (BeautifulSoup : pystr → document)
    (reply : outcome response) (id : Z) : option (list vehicle) :=
  match reply with
  | Returned response =>
      if resp_ok response && str_in marker (resp_text response) then
        match parse_models_config U (BeautifulSoup (resp_text response)) with
        | Returned results => Some (insert k_ID (py_str id) <$> results)
        | Raised _ => None
        end
      else None
  | Raised _ => None
  end.

(** An extraction is acceptable when it is not empty and one of its
    records has a model name other than the sentinel. *)
Definition acceptable (results : list vehicle) : Prop :=
  results ≠ []
  ∧ ∃ res name, res ∈ results ∧ res !! k_model = Some name ∧ name ≠ unknown_model.

(** A parser that sees [sample_page] whatever the text. *)
Definition sample_parser (text : pystr) : document := sample_page.

(** A transport that fails at every attempt. *)
Definition dead_link (attempt : nat) : outcome response := Raised RequestError.

(** A transport that serves a configuration page from the second attempt
    on. *)
Definition slow_link (attempt : nat) : outcome response :=
  match attempt with
  | O => Raised RequestError
  | S _ => Returned {| resp_ok := true; resp_text := marker |}
  end.

(** The collector after the records have arrived in the given order. *)
Definition collect_all (records : list vehicle) : collector :=
  foldl collect empty_collector records.

(** Two records of different energy types. *)
Definition sample_fuel : vehicle :=
  {[ k_model := py "Model F"; k_energy := py "汽油"; py "displacement" := py "2.0" ]}.

Definition unknown_csv : pystr := Eval vm_compute in py "car_data_unknown.csv".

(** The labels whose bucket goes to [car_data_unknown.csv]: those
    [ENERGY_TYPES] does not know, and the label it maps to that tag. *)
Definition goes_to_unknown (label : pystr) : Prop :=
  ENERGY_TYPES !! label = None ∨ label = unknown_label.

(** A page with three model columns whose energy-type row has two cells,
    both with labels [ENERGY_TYPES] does not know; the third model is
    left without an energy type. *)
Definition three_column_page : document :=
  {| doc_header := Some [Some (py "H2"); Some (py "D4"); Some (py "Z9")];
     doc_price := None;
     doc_sections :=
       [[ {| row_label := Some k_energy; row_cells := [py "氢能"; py "柴油"] |} ]] |}.

Definition three_column_parser (text : pystr) : document := three_column_page.

(** The three records [fetch_data] returns for that page and ID 1. *)
Definition hydrogen_car : vehicle :=
  {[ k_ID := py "1"; k_model := py "H2"; k_price := NA; k_energy := py "氢能" ]}.
Definition diesel_car : vehicle :=
  {[ k_ID := py "1"; k_model := py "D4"; k_price := NA; k_energy := py "柴油" ]}.
Definition unlabelled_car : vehicle :=
  {[ k_ID := py "1"; k_model := py "Z9"; k_price := NA ]}.

(** A transport that serves a configuration page at once. *)
Definition open_link (id : Z) (attempt : nat) : outcome response :=
  Returned {| resp_ok := true; resp_text := marker |}.

(** A manifest with the single identifier 1. *)
Definition manifest_1 : csv_file :=
  {| csv_bom := false; csv_header := [k_id]; csv_rows := [[py "1"]] |}.

(** A manifest with the identifiers 1, 2 and 3, a blank line and a row
    whose identifier is no number. *)
Definition manifest_123 : csv_file :=
  {| csv_bom := false;
     csv_header := [k_id; py "name"];
     csv_rows := [[py "1"; py "a"]; [py "2"; py "b"]; []; [py "x"; py "b"];
                  [py "3"; py "c"]] |}.

(** A transport that serves a configuration page for ID 1, a page without
    the marker for ID 2, and fails for every other ID. *)
Definition mixed_link (id : Z) (attempt : nat) : outcome response :=
  if (id =? 1)%Z then Returned {| resp_ok := true; resp_text := py "<h1>参数配置</h1>" |}
  else if (id =? 2)%Z then Returned {| resp_ok := true; resp_text := py "<h1>404</h1>" |}
  else Raised RequestError.

(** The same files, had they been written without byte-order mark. *)
Definition without_bom (dir : directory) : directory :=
  (fun entry : pystr * csv_file =>
     (entry.1, {| csv_bom := false;
                  csv_header := csv_header entry.2;
                  csv_rows := csv_rows entry.2 |})) <$> dir.

(** A CSV file of another origin, without [ID] column. *)
Definition notes_file : csv_file :=
  {| csv_bom := false; csv_header := [py "name"]; csv_rows := [[py "memo"]] |}.

(** A manifest with a negative identifier, and an output file that has a
    row for it. *)
Definition manifest_minus_5 : csv_file :=
  {| csv_bom := false; csv_header := [k_id]; csv_rows := [[py "-5"]] |}.

Definition done_minus_5 : csv_file :=
  {| csv_bom := false; csv_header := [k_ID; k_model]; csv_rows := [[py "-5"; py "M"]] |}.

(** The identifiers one output file marks as done (line 49). *)
Definition done_ids_of (U : unicode_tables) (f : csv_file) : outcome (gset Z) :=
  for_each (DictReader utf_8 f) (add_done_row U) ∅.

(** The records a scan of [ids] hands to the collector, in order. *)
Definition fetched_records (U : unicode_tables) (BeautifulSoup : pystr → document)
    (net : Z → nat → outcome response) (ids : list Z) : list vehicle :=
  ids ≫= (fun id =>
    match fetch_outcome (fetch_data U BeautifulSoup (net id) id) with
    | Returned (_, Some models) => models
    | _ => []
    end).

(** A page the extractor gives up on: the price cell has no enclosing
    row, or an anchored row has no label cell. *)
Definition malformed (soup : document) : Prop :=
  doc_price soup = Some None
  ∨ ∃ section row, section ∈ doc_sections soup ∧ row ∈ section ∧ row_label row = None.

(** The text stored as price for the text of a price cell (line 79). *)
Definition price_text (U : unicode_tables) (text : pystr) : pystr :=
  re_sub_class (not_price_char U) [] text ++ wan.

(** All records of the list have the key. *)
Definition keyed (key : pystr) (models : list vehicle) : Prop :=
  Forall (fun model => is_Some (model !! key)) models.

(** The pauses of a call in which every attempt falls through to the
    [sleep]. *)
Definition full_schedule : list (nat * Q) :=
  (fun attempt => (attempt, backoff attempt)) <$> seq 0 retry_times.

(** The seconds slept in all. *)
Definition total_sleep (slept : list (nat * Q)) : Q :=
  foldr (fun pause total => (pause.2 + total)%Q) 0%Q slept.

(** The label a record is filed under (line 151). *)
Definition energy_label (model : vehicle) : pystr :=
  default unknown_label (model !! k_energy).

(** A manifest whose second row is too short to have an [id]. *)
Definition manifest_short_row : csv_file :=
  {| csv_bom := false;
     csv_header := [py "name"; k_id];
     csv_rows := [[py "a"; py "1"]; [py "b"]] |}.

(** The entries [get_unique_ids] opens. *)
Definition csv_entries (entries : directory) : directory :=
  filter (fun entry => endswith entry.1 dot_csv = true) entries.

(** An output file, without byte-order mark, with a row for ID 1. *)
Definition done_1 : csv_file :=
  {| csv_bom := false; csv_header := [k_ID; k_model]; csv_rows := [[py "1"; py "M"]] |}.

(** A page that has the header block and nothing else: one column with a
    name element, one without. *)
Definition header_only_page : document :=
  {| doc_header := Some [Some (py "○Model S"); None];
     doc_price := None;
     doc_sections := [] |}.

(** The private use area of the basic plane, U+E000 to U+F8FF. *)
Definition private_use_area (c : N) : bool := (0xE000 <=? c) && (c <=? 0xF8FF).





(** An output file, without byte-order mark, whose row is too short to
    have an [ID]. *)
Definition done_short_row : csv_file :=
  {| csv_bom := false; csv_header := [k_model; k_ID]; csv_rows := [[py "M"]] |}.

(** * Properties *)

(** ** Loops and exceptions *)

Lemma bind_Returned {A B} (m : outcome A) (f : A → outcome B) b :
  m ≫= f = Returned b ↔ ∃ a, m = Returned a ∧ f a = Returned b.
Proof.
  destruct m as [a|e]; simpl.
  - split; [eauto | intros (a' & [= ->] & H); exact H].
  - split; [discriminate | intros (a' & [=] & _)].
Qed.

(** An invariant of the loop state holds when the loop returns. *)
Lemma for_each_invariant {A S} (P : S → Prop) (body : S → A → outcome S) xs :
  (∀ s x s', x ∈ xs → P s → body s x = Returned s' → P s') →
  ∀ s s', P s → for_each xs body s = Returned s' → P s'.
Proof.
  induction xs as [|x xs IH]; intros Hbody s s' Hs; simpl.
  - intros [= <-]. exact Hs.
  - intros (s1 & H1 & H2)%bind_Returned.
    apply (IH (fun s0 y s1' Hy => Hbody s0 y s1' (list_elem_of_further _ _ _ Hy)) s1);
      [|exact H2].
    exact (Hbody s x s1 (list_elem_of_here _ _) Hs H1).
Qed.

(** A loop whose body never raises returns. *)
Lemma for_each_returns {A S} (P : S → Prop) (body : S → A → outcome S) xs :
  (∀ s x, x ∈ xs → P s → ∃ s', body s x = Returned s' ∧ P s') →
  ∀ s, P s → ∃ s', for_each xs body s = Returned s' ∧ P s'.
Proof.
  induction xs as [|x xs IH]; intros Hbody s Hs; simpl.
  - eauto.
  - destruct (Hbody s x (list_elem_of_here _ _) Hs) as (s1 & -> & Hs1). simpl.
    apply IH; [|exact Hs1].
    intros s0 y Hy. apply Hbody. by apply list_elem_of_further.
Qed.

(** The loop stops at the first element whose body raises. *)
Lemma for_each_app {A S} (body : S → A → outcome S) xs ys s :
  for_each (xs ++ ys) body s = for_each xs body s ≫= for_each ys body.
Proof.
  revert s. induction xs as [|x xs IH]; intros s; simpl; [done|].
  destruct (body s x) as [s1|e]; simpl; [apply IH | done].
Qed.

Lemma for_each_raises_at {A S} (body : S → A → outcome S) before x after e :
  (∀ s, body s x = Raised e) →
  ∀ s, ∃ e', for_each (before ++ x :: after) body s = Raised e'
             ∧ (∀ s', for_each before body s = Returned s' → e' = e).
Proof.
  intros Hx s. rewrite for_each_app.
  destruct (for_each before body s) as [s1|e1]; simpl.
  - rewrite Hx. simpl. exists e. split; [done | auto].
  - exists e1. split; [done | discriminate].
Qed.

(** ** The extractor: what every step keeps *)

Lemma setitem_ok n models idx key value models' :
  models_ok n models →
  setitem models idx key value = Returned models' →
  models_ok n models'.
Proof.
  intros [Hlen Hall]. unfold setitem.
  destruct (models !! idx) as [model|] eqn:Hidx; [|discriminate].
  intros [= <-]. split.
  - by rewrite length_insert.
  - apply Forall_insert; [exact Hall|].
    destruct (decide (key = k_model)) as [->|Hne].
    + rewrite lookup_insert_eq. eauto.
    + rewrite lookup_insert_ne by done.
      exact (proj1 (Forall_lookup _ _) Hall idx model Hidx).
Qed.

Lemma assign_cells_ok n key f cells models models' :
  models_ok n models →
  assign_cells key f cells models = Returned models' →
  models_ok n models'.
Proof.
  intros Hok. unfold assign_cells.
  generalize (enumerate (take (length models) cells)). intros xs.
  apply for_each_invariant; [|exact Hok].
  intros s [idx text] s' _ Hs. by apply setitem_ok.
Qed.

Section ExtractorFacts.

Context (U : unicode_tables).

Lemma assign_names_ok n model_cols models models' :
  models_ok n models →
  assign_names model_cols models = Returned models' →
  models_ok n models'.
Proof.
  intros Hok. unfold assign_names.
  apply for_each_invariant; [|exact Hok].
  intros s [idx [text|]] s' _ Hs; [by apply setitem_ok | by intros [= <-]].
Qed.

Lemma assign_prices_ok n price_row models models' :
  models_ok n models →
  assign_prices U price_row models = Returned models' →
  models_ok n models'.
Proof.
  intros Hok. unfold assign_prices.
  destruct price_row as [[price_cells|]|]; simpl; [|discriminate|by intros [= <-]].
  by apply assign_cells_ok.
Qed.

Lemma assign_section_ok n section models models' :
  models_ok n models →
  assign_section models section = Returned models' →
  models_ok n models'.
Proof.
  intros Hok. unfold assign_section.
  apply for_each_invariant; [|exact Hok].
  intros s row s' _ Hs. destruct (row_label row) as [label|]; simpl; [|discriminate].
  by apply assign_cells_ok.
Qed.

Lemma assign_sections_ok n sections models models' :
  models_ok n models →
  for_each sections assign_section models = Returned models' →
  models_ok n models'.
Proof.
  intros Hok. apply for_each_invariant; [|exact Hok].
  intros s section s' _ Hs. by apply assign_section_ok.
Qed.

End ExtractorFacts.

(** ** The normaliser *)

Lemma fill_fold_lookup (fields : list pystr) (model : vehicle) (k : pystr) :
  foldl (fun model field => <[field := default NA (model !! field)]> model)
        model fields !! k
  = if decide (k ∈ fields) then Some (default NA (model !! k)) else model !! k.
Proof.
  revert model. induction fields as [|f fields IH]; intros model.
  - destruct (decide (k ∈ [])) as [Hin|_]; [|done].
    by apply not_elem_of_nil in Hin.
  - change (foldl ?g model (f :: fields)) with (foldl g (g model f) fields).
    rewrite IH. destruct (decide (k = f)) as [->|Hne].
    + rewrite lookup_insert_eq.
      destruct (decide (f ∈ f :: fields)) as [_|Hnin].
      * by destruct (decide (f ∈ fields)).
      * destruct Hnin. apply list_elem_of_here.
    + rewrite lookup_insert_ne by done.
      destruct (decide (k ∈ fields)) as [Hin|Hnin];
        destruct (decide (k ∈ f :: fields)) as [Hin'|Hnin']; try done.
      * destruct Hnin'. by apply list_elem_of_further.
      * apply elem_of_cons in Hin' as [?|?]; contradiction.
Qed.

Lemma fill_specific_fields_lookup (model : vehicle) (k : pystr) :
  fill_specific_fields model !! k
  = if decide (k ∈ get_energy_specific_fields (default NA (model !! k_energy)))
    then Some (default NA (model !! k)) else model !! k.
Proof. unfold fill_specific_fields. apply fill_fold_lookup. Qed.

Lemma fill_specific_fields_keeps (model : vehicle) (k : pystr) :
  is_Some (model !! k) → fill_specific_fields model !! k = model !! k.
Proof.
  intros [v Hv]. rewrite fill_specific_fields_lookup, Hv.
  by destruct (decide _).
Qed.

Lemma fill_specific_fields_ok n models :
  models_ok n models → models_ok n (fill_specific_fields <$> models).
Proof.
  intros [Hlen Hall]. split; [by rewrite length_fmap|].
  apply Forall_fmap. eapply Forall_impl; [exact Hall|].
  intros model Hm. simpl. by rewrite fill_specific_fields_keeps.
Qed.

Section ExtractorResults.

Context (U : unicode_tables).

Lemma parse_models_config_body_ok soup models :
  parse_models_config_body U soup = Returned models →
  models_ok (model_cols_count soup) models.
Proof.
  unfold parse_models_config_body, model_cols_count.
  destruct (doc_header soup) as [model_cols|].
  2:{ intros [= <-]. split; [done | constructor]. }
  destruct (decide (model_cols = [])) as [->|Hne].
  { intros [= <-]. split; [done | constructor]. }
  intros (m1 & H1 & (m2 & H2 & (m3 & H3 & [= <-])%bind_Returned)%bind_Returned)%bind_Returned.
  apply fill_specific_fields_ok.
  eapply assign_sections_ok; [|exact H3].
  eapply assign_prices_ok; [|exact H2].
  eapply assign_names_ok; [|exact H1].
  split; [by rewrite length_fmap|].
  apply Forall_fmap, Forall_forall. intros col _. simpl.
  rewrite lookup_insert_eq. eauto.
Qed.

(** The handler turns every exception of the body into the empty list. *)
Lemma parse_models_config_cases soup :
  (∃ models, parse_models_config_body U soup = Returned models
             ∧ parse_models_config U soup = Returned models)
  ∨ (∃ e, parse_models_config_body U soup = Raised e
          ∧ parse_models_config U soup = Returned []).
Proof.
  unfold parse_models_config.
  destruct (parse_models_config_body U soup) as [models|e]; simpl; eauto.
Qed.

End ExtractorResults.

(** ** Claims on the extractor *)

(** C1: the list returned by [parse_models_config] has as many records as
    the header has model columns, or none; when the body of the [try]
    raises nothing, it has exactly as many records as model columns. *)
Theorem parse_models_config_length (U : unicode_tables) (soup : document) :
  ∃ models, parse_models_config U soup = Returned models
    ∧ (length models = model_cols_count soup ∨ length models = 0%nat)
    ∧ ((∀ e, parse_models_config_body U soup ≠ Raised e) →
       length models = model_cols_count soup).
Proof.
  destruct (parse_models_config_cases U soup)
    as [(models & Hbody & ->)|(e & Hbody & ->)].
  - exists models. pose proof (parse_models_config_body_ok U soup models Hbody) as [Hlen _].
    eauto.
  - exists []. split; [done|]. split; [by right|].
    intros Hno. by destruct (Hno e).
Qed.

Lemma parse_models_config_length_witness :
  ∃ models, parse_models_config ascii_only sample_page = Returned models
            ∧ length models = 2%nat.
Proof.
  destruct (parse_models_config_length ascii_only sample_page)
    as (models & Hret & _ & Hexact).
  exists models. split; [exact Hret|].
  apply Hexact. intros e He.
  assert (Hfine : match parse_models_config_body ascii_only sample_page with
                  | Returned _ => true
                  | Raised _ => false
                  end = true) by (vm_compute; reflexivity).
  rewrite He in Hfine. discriminate Hfine.
Defined.

(** C5: [parse_models_config] never raises. Whatever the body of the
    [try] raises, the result is the empty list; so it is for a page
    without a header block or without model columns in it. *)
Theorem parse_models_config_never_raises (U : unicode_tables) (soup : document) :
  ∃ models, parse_models_config U soup = Returned models
    ∧ (∀ e, parse_models_config_body U soup = Raised e → models = [])
    ∧ (doc_header soup = None ∨ doc_header soup = Some [] → models = []).
Proof.
  destruct (parse_models_config_cases U soup)
    as [(models & Hbody & ->)|(e & Hbody & ->)].
  - exists models. split; [done|]. split.
    + intros e He. congruence.
    + intros Hhead. apply parse_models_config_body_ok in Hbody as [Hlen _].
      apply nil_length_inv. rewrite Hlen. unfold model_cols_count.
      by destruct Hhead as [->| ->].
  - exists []. auto.
Qed.

Lemma parse_models_config_never_raises_witness :
  parse_models_config_body ascii_only orphan_price_page = Raised AttributeError
  ∧ parse_models_config ascii_only orphan_price_page = Returned []
  ∧ parse_models_config ascii_only headless_page = Returned [].
Proof.
  destruct (parse_models_config_never_raises ascii_only orphan_price_page)
    as (m1 & Hret1 & Hexn & _).
  destruct (parse_models_config_never_raises ascii_only headless_page)
    as (m2 & Hret2 & _ & Hhead).
  assert (Hraised : parse_models_config_body ascii_only orphan_price_page
                    = Raised AttributeError) by (vm_compute; reflexivity).
  rewrite (Hexn _ Hraised) in Hret1.
  rewrite (Hhead (or_introl eq_refl)) in Hret2.
  auto.
Defined.

(** The class of [strip_glyphs], spelled out. *)
Lemma glyph_spec (c : N) :
  glyph c = true
  ↔ (0xE600 ≤ c ∧ c ≤ 0xE6FF) ∨ c = 0x25CF ∨ c = 0x25CB ∨ c = 0x203B.
Proof.
  unfold glyph.
  rewrite !orb_true_iff, andb_true_iff, !N.leb_le, !N.eqb_eq. tauto.
Qed.

Lemma strip_glyphs_cons (c : N) (text : pystr) :
  strip_glyphs (c :: text)
  = if glyph c then strip_glyphs text else c :: strip_glyphs text.
Proof. unfold strip_glyphs, re_sub_class. simpl. by destruct (glyph c). Qed.

Lemma strip_glyphs_filter (text : pystr) :
  strip_glyphs text = filter (fun c => glyph c = false) text.
Proof.
  induction text as [|c text IH]; [done|].
  rewrite strip_glyphs_cons, IH.
  destruct (glyph c) eqn:Hc.
  - rewrite filter_cons_False; [done | congruence].
  - by rewrite filter_cons_True.
Qed.

Lemma strip_glyphs_interleaved (text marks mixed : pystr) :
  interleaved text marks mixed →
  Forall (fun c => glyph c = false) text →
  Forall (fun c => glyph c = true) marks →
  strip_glyphs mixed = text.
Proof.
  induction 1 as [|c text marks mixed _ IH|c text marks mixed _ IH];
    intros Htext Hmarks.
  - done.
  - apply Forall_cons in Htext as [Hc Htext].
    rewrite strip_glyphs_cons, Hc. f_equal. by apply IH.
  - apply Forall_cons in Hmarks as [Hc Hmarks].
    rewrite strip_glyphs_cons, Hc. by apply IH.
Qed.

(** C7: cleaning removes the characters of the class (the icon code
    points U+E600 to U+E6FF, the bullet, the circle and the reference mark)
    and nothing else: a text free of them, with such characters put in
    between, comes back as it was; and "●Model X※" becomes "Model X". *)
Theorem strip_glyphs_removes_exactly :
  (∀ text marks mixed : pystr,
      interleaved text marks mixed →
      Forall (fun c => glyph c = false) text →
      Forall (fun c => glyph c = true) marks →
      strip_glyphs mixed = text)
  ∧ (∀ (text : pystr) (c : N),
        c ∈ strip_glyphs text ↔ c ∈ text ∧ glyph c = false)
  ∧ (∀ c : N, glyph c = true
        ↔ (0xE600 ≤ c ∧ c ≤ 0xE6FF) ∨ c = 0x25CF ∨ c = 0x25CB ∨ c = 0x203B)
  ∧ strip_glyphs (py "●Model X※") = py "Model X".
Proof.
  split; [exact strip_glyphs_interleaved|].
  split; [|split; [exact glyph_spec | reflexivity]].
  intros text c. rewrite strip_glyphs_filter, list_elem_of_filter. tauto.
Qed.

Lemma strip_glyphs_removes_exactly_witness :
  strip_glyphs [0xE6A1; 0x4D; 0x25CB; 0x33; 0xE600] = [0x4D; 0x33].
Proof.
  apply (proj1 strip_glyphs_removes_exactly [0x4D; 0x33] [0xE6A1; 0x25CB; 0xE600]).
  - repeat constructor.
  - repeat constructor.
  - repeat constructor.
Defined.

(** C7, as the claim has it, fails: of the private use area the class
    has the code points U+E600 to U+E6FF only, and of the marks the three
    it lists. Other private-use code points, the asterisk and the bullet
    are kept. *)
Lemma other_private_use_glyphs_kept :
  Forall (fun c => private_use_area c = true) [0xE000; 0xE5FF; 0xE700; 0xF8FF]
  ∧ strip_glyphs ([0xE000] ++ py "Model X" ++ [0xE700])
    = [0xE000] ++ py "Model X" ++ [0xE700]
  ∧ strip_glyphs [0xE5FF; 0xF8FF] = [0xE5FF; 0xF8FF]
  ∧ strip_glyphs (py "*Model X•") = py "*Model X•"
  ∧ strip_glyphs ([0xE000] ++ py "Model X" ++ [0xE700]) ≠ py "Model X".
Proof.
  split; [repeat constructor|].
  repeat split; try (vm_compute; reflexivity).
  intros Heq. vm_compute in Heq. discriminate Heq.
Qed.

(** ** Claims on the normaliser *)

Lemma fill_specific_fields_spec (model : vehicle) (t : pystr) (fields : list pystr) :
  model !! k_energy = Some t →
  ENERGY_TYPE_MAP !! t = Some fields →
  (∀ f, f ∈ fields → fill_specific_fields model !! f = Some (default NA (model !! f)))
  ∧ (∀ k, k ∉ fields → fill_specific_fields model !! k = model !! k).
Proof.
  intros Ht Hfields.
  assert (Hget : get_energy_specific_fields (default NA (model !! k_energy)) = fields).
  { rewrite Ht. unfold get_energy_specific_fields. simpl. by rewrite Hfields. }
  split; intros k Hk; rewrite fill_specific_fields_lookup, Hget.
  - by rewrite decide_True.
  - by rewrite decide_False.
Qed.

(** C2: when the energy type of a record is a key of [ENERGY_TYPE_MAP],
    the normalised record has every field listed for that type, with the
    value it had or with "N/A" when it had none; every other key is as it
    was, present or absent. *)
Theorem fill_specific_fields_complete (model : vehicle) (t : pystr)
    (fields : list pystr) :
  model !! k_energy = Some t →
  ENERGY_TYPE_MAP !! t = Some fields →
  (∀ f, f ∈ fields →
        fill_specific_fields model !! f
        = Some (match model !! f with Some v => v | None => NA end))
  ∧ (∀ k, k ∉ fields → fill_specific_fields model !! k = model !! k).
Proof.
  intros Ht Hfields.
  destruct (fill_specific_fields_spec model t fields Ht Hfields) as [Hin Hout].
  split; [|exact Hout].
  intros f Hf. rewrite (Hin f Hf). by destruct (model !! f).
Qed.

Lemma fill_specific_fields_complete_witness :
  fill_specific_fields sample_electric !! py "electric_consumption" = Some NA
  ∧ fill_specific_fields sample_electric !! py "battery_capacity" = Some (py "75kWh")
  ∧ fill_specific_fields sample_electric !! py "座位数" = Some (py "5")
  ∧ fill_specific_fields sample_electric !! py "fuel_consumption" = None.
Proof.
  destruct (fill_specific_fields_complete sample_electric (py "纯电")
              [py "electric_consumption"; py "battery_capacity";
               py "cltc_recharge_mileage"])
    as [Hin Hout]; [reflexivity | reflexivity |].
  split; [|split; [|split]].
  - rewrite Hin; [reflexivity | vm_compute; apply list_elem_of_here].
  - rewrite Hin; [reflexivity|].
    vm_compute. apply list_elem_of_further, list_elem_of_here.
  - rewrite Hout; [reflexivity|]. compute_done.
  - rewrite Hout; [reflexivity|]. compute_done.
Defined.

(** No catalog entry lists the energy-type key itself. *)
Lemma energy_key_not_specific (t : pystr) :
  k_energy ∉ get_energy_specific_fields t.
Proof.
  unfold get_energy_specific_fields.
  destruct (ENERGY_TYPE_MAP !! t) as [fields|] eqn:Ht; [|apply not_elem_of_nil].
  apply elem_of_list_to_map_2 in Ht.
  repeat (apply elem_of_cons in Ht as [[= _ ->]|Ht];
          [compute_done|]).
  by apply not_elem_of_nil in Ht.
Qed.

(** The records the extractor returns are normalised. *)
Lemma parse_models_config_normalized (U : unicode_tables) (soup : document)
    (models : list vehicle) (model : vehicle) (t : pystr) (fields : list pystr) :
  parse_models_config U soup = Returned models →
  model ∈ models →
  model !! k_energy = Some t →
  ENERGY_TYPE_MAP !! t = Some fields →
  ∀ f, f ∈ fields → is_Some (model !! f).
Proof.
  intros Hret Hin Ht Hfields f Hf.
  destruct (parse_models_config_cases U soup)
    as [(models' & Hbody & Hret')|(e & _ & Hret')];
    rewrite Hret' in Hret; injection Hret as <-.
  2:{ by apply not_elem_of_nil in Hin. }
  unfold parse_models_config_body in Hbody.
  destruct (doc_header soup) as [model_cols|].
  2:{ injection Hbody as <-. by apply not_elem_of_nil in Hin. }
  destruct (decide (model_cols = [])).
  { injection Hbody as <-. by apply not_elem_of_nil in Hin. }
  apply bind_Returned in Hbody as (m1 & _ & Hbody).
  apply bind_Returned in Hbody as (m2 & _ & Hbody).
  apply bind_Returned in Hbody as (m3 & _ & [= <-]).
  apply list_elem_of_fmap in Hin as (raw & -> & _).
  assert (Hraw : raw !! k_energy = Some t).
  { rewrite fill_specific_fields_lookup in Ht.
    rewrite decide_False in Ht by apply energy_key_not_specific. exact Ht. }
  destruct (fill_specific_fields_spec raw t fields Hraw Hfields) as [Hall _].
  rewrite (Hall f Hf). eauto.
Qed.

(** ** fetch_data: acceptance and retries *)

Lemma any_named_spec (results : list vehicle) :
  Forall (fun res => is_Some (res !! k_model)) results →
  ∃ b : bool, any_named results = Returned b
    ∧ (b = true ↔ ∃ res name, res ∈ results ∧ res !! k_model = Some name
                               ∧ name ≠ unknown_model).
Proof.
  induction 1 as [|res results [name Hname] _ (b & Hb & Hiff)]; simpl.
  - exists false. split; [done|]. split; [done|].
    intros (res & _ & Hin & _). by apply not_elem_of_nil in Hin.
  - unfold getitem. rewrite Hname. simpl.
    destruct (bool_decide (name ≠ unknown_model)) eqn:Hdec.
    + exists true. split; [done|]. split; [|done]. intros _.
      exists res, name. split; [apply list_elem_of_here|].
      split; [done | by apply bool_decide_eq_true in Hdec].
    + exists b. split; [done|]. rewrite Hiff. split.
      * intros (res' & name' & Hin & Hres & Hne).
        exists res', name'. split; [by apply list_elem_of_further | done].
      * intros (res' & name' & [->|Hin]%elem_of_cons & Hres & Hne).
        -- rewrite Hname in Hres. injection Hres as <-.
           apply bool_decide_eq_false in Hdec. contradiction.
        -- eauto.
Qed.

Section FetchFacts.

Context (U : unicode_tables) (BeautifulSoup : pystr → document).

(** The extractor's records all carry a model name, tagged or not. *)
Lemma tagged_results_named soup results id :
  parse_models_config U soup = Returned results →
  Forall (fun res : vehicle => is_Some (res !! k_model))
         (insert k_ID (py_str id) <$> results).
Proof.
  intros Hret. apply Forall_fmap.
  assert (Hall : Forall (fun res : vehicle => is_Some (res !! k_model)) results).
  { destruct (parse_models_config_cases U soup)
      as [(models & Hbody & Hret')|(e & _ & Hret')];
      rewrite Hret' in Hret; injection Hret as <-; [|constructor].
    by apply parse_models_config_body_ok in Hbody as [_ ?]. }
  eapply Forall_impl; [exact Hall|].
  intros res Hres. simpl. rewrite lookup_insert_ne; [done | compute_done].
Qed.

(** One pass through the loop body: it returns an acceptable extraction,
    or goes on to the next attempt. *)
Lemma attempt_cases reply id :
  let pass := try_except (attempt_body U BeautifulSoup reply id) Exception
                         (fun e => Returned Next) in
  (∃ results, pass = Returned (Return (id, Some results))
              ∧ attempt_results U BeautifulSoup reply id = Some results
              ∧ acceptable results)
  ∨ ((pass = Returned Continue ∨ pass = Returned Next)
     ∧ ∀ results, attempt_results U BeautifulSoup reply id = Some results →
                  ¬ acceptable results).
Proof.
  unfold attempt_body, attempt_results.
  destruct reply as [response|e]; simpl; [|right; split; [auto | discriminate]].
  destruct (resp_ok response); simpl; [|right; split; [auto | discriminate]].
  destruct (str_in marker (resp_text response)); simpl;
    [|right; split; [auto | discriminate]].
  destruct (parse_models_config U (BeautifulSoup (resp_text response)))
    as [results|e] eqn:Hparse; simpl; [|right; split; [auto | discriminate]].
  pose proof (tagged_results_named _ _ id Hparse) as Hnamed.
  set (tagged := insert k_ID (py_str id) <$> results) in *.
  destruct (any_named_spec tagged Hnamed) as (b & Hany & Hiff).
  destruct (bool_decide (0 < length tagged)%nat) eqn:Hlen.
  - rewrite Hany. simpl. destruct b.
    + left. exists tagged. split; [done|]. split; [done|]. split.
      * apply bool_decide_eq_true in Hlen. intros Hnil. rewrite Hnil in Hlen.
        simpl in Hlen. lia.
      * by apply Hiff.
    + right. split; [auto|]. intros ? [= <-] [_ Hex].
      apply Hiff in Hex. discriminate.
  - simpl. right. split; [auto|]. intros ? [= <-] [Hne _].
    apply bool_decide_eq_false in Hlen. destruct tagged; [done | simpl in Hlen; lia].
Qed.

(** The loop over any list of attempts. *)
Lemma fetch_loop_outcome replies id attempts slept :
  ∃ result,
    fetch_outcome (fetch_loop U BeautifulSoup replies id attempts slept)
    = Returned (id, result)
    ∧ match result with
      | Some results =>
          ∃ before attempt after,
            attempts = before ++ attempt :: after
            ∧ attempt_results U BeautifulSoup (replies attempt) id = Some results
            ∧ acceptable results
            ∧ ∀ j results', j ∈ before →
                attempt_results U BeautifulSoup (replies j) id = Some results' →
                ¬ acceptable results'
      | None =>
          ∀ j results', j ∈ attempts →
            attempt_results U BeautifulSoup (replies j) id = Some results' →
            ¬ acceptable results'
      end.
Proof.
  revert slept. induction attempts as [|attempt rest IH]; intros slept; simpl.
  - exists None. split; [done|]. intros j ? Hj. by apply not_elem_of_nil in Hj.
  - destruct (attempt_cases (replies attempt) id)
      as [(results & -> & Hres & Hacc)|(Hpass & Hrej)]; simpl.
    + exists (Some results). split; [done|].
      exists [], attempt, rest. split; [done|]. split; [done|]. split; [done|].
      intros j ? Hj. by apply not_elem_of_nil in Hj.
    + assert (∃ slept', fetch_outcome
                (match try_except (attempt_body U BeautifulSoup (replies attempt) id)
                         Exception (fun e => Returned Next) with
                 | Raised e => {| fetch_outcome := Raised e; fetch_slept := slept |}
                 | Returned Continue => fetch_loop U BeautifulSoup replies id rest slept
                 | Returned (Return result) =>
                     {| fetch_outcome := Returned result; fetch_slept := slept |}
                 | Returned Next =>
                     fetch_loop U BeautifulSoup replies id rest
                       (slept ++ [(attempt, backoff attempt)])
                 end)
              = fetch_outcome (fetch_loop U BeautifulSoup replies id rest slept'))
        as [slept' ->].
      { destruct Hpass as [-> | ->]; eauto. }
      destruct (IH slept') as (result & -> & Hresult).
      exists result. split; [done|]. destruct result as [results|].
      * destruct Hresult as (before & a & after & -> & Hres & Hacc & Hbefore).
        exists (attempt :: before), a, after. split; [done|]. split; [done|].
        split; [done|]. intros j results' [->|Hj]%elem_of_cons; eauto.
      * intros j results' [->|Hj]%elem_of_cons; eauto.
Qed.

(** Every [sleep] of the loop follows an attempt that fell through to
    it, for the time [backoff] of that attempt. *)
Lemma fetch_loop_slept replies id attempts slept attempt delay :
  (attempt, delay) ∈ fetch_slept (fetch_loop U BeautifulSoup replies id attempts slept) →
  (attempt, delay) ∈ slept
  ∨ (attempt ∈ attempts
     ∧ delay = backoff attempt
     ∧ try_except (attempt_body U BeautifulSoup (replies attempt) id) Exception
                  (fun e => Returned Next) = Returned Next).
Proof.
  revert slept. induction attempts as [|a rest IH]; intros slept; simpl; [auto|].
  destruct (try_except (attempt_body U BeautifulSoup (replies a) id) Exception
                       (fun e => Returned Next)) as [[|result|]|e] eqn:Hpass;
    simpl; auto.
  - intros [?|(Hin & ? & ?)]%IH; [auto|].
    right. split; [by apply list_elem_of_further | done].
  - intros [[?|Hlast%list_elem_of_singleton]%elem_of_app|(Hin & ? & ?)]%IH; [auto| |].
    + injection Hlast as -> ->. right. split; [apply list_elem_of_here | done].
    + right. split; [by apply list_elem_of_further | done].
Qed.

End FetchFacts.

Lemma seq_split_at (n : nat) (before after : list nat) (a : nat) :
  seq 0 n = before ++ a :: after →
  (a < n)%nat ∧ ∀ j, (j < a)%nat → j ∈ before.
Proof.
  intros Hseq.
  assert (Ha : seq 0 n !! length before = Some a).
  { rewrite Hseq. by apply list_lookup_middle. }
  apply lookup_seq in Ha as [-> Hlt]. split; [exact Hlt|].
  intros j Hj. simpl in Hj.
  destruct (lookup_lt_is_Some_2 before j Hj) as [x Hx].
  assert (Hx' : seq 0 n !! j = Some x).
  { rewrite Hseq. by apply lookup_app_l_Some. }
  apply lookup_seq in Hx' as [-> _]. simpl.
  by apply list_elem_of_lookup_2 in Hx.
Qed.

(** C6: [fetch_data] always returns, with the identifier it was given. It
    returns records only from an attempt whose extraction is not empty
    and has a record with a real model name, the first such attempt; an
    attempt without such an extraction is passed over, and when all
    [retry_times] attempts are, the result is [None]. *)
Theorem fetch_data_accepts (U : unicode_tables) (BeautifulSoup : pystr → document)
    (replies : nat → outcome response) (id : Z) :
  ∃ result,
    fetch_outcome (fetch_data U BeautifulSoup replies id) = Returned (id, result)
    ∧ (∀ results, result = Some results →
         ∃ attempt, (attempt < retry_times)%nat
           ∧ attempt_results U BeautifulSoup (replies attempt) id = Some results
           ∧ acceptable results
           ∧ ∀ j results', (j < attempt)%nat →
               attempt_results U BeautifulSoup (replies j) id = Some results' →
               ¬ acceptable results')
    ∧ (result = None →
         ∀ j results', (j < retry_times)%nat →
           attempt_results U BeautifulSoup (replies j) id = Some results' →
           ¬ acceptable results').
Proof.
  unfold fetch_data.
  destruct (fetch_loop_outcome U BeautifulSoup replies id (seq 0 retry_times) [])
    as (result & Hret & Hresult).
  exists result. split; [exact Hret|]. split.
  - intros results ->.
    destruct Hresult as (before & attempt & after & Hseq & Hres & Hacc & Hbefore).
    apply seq_split_at in Hseq as [Hlt Hin].
    exists attempt. split; [exact Hlt|]. split; [exact Hres|]. split; [exact Hacc|].
    intros j results' Hj. apply Hbefore, Hin, Hj.
  - intros ->. intros j results' Hj. apply Hresult.
    apply elem_of_seq. lia.
Qed.

Lemma fetch_data_accepts_witness :
  ∃ results,
    fetch_outcome (fetch_data ascii_only sample_parser slow_link 7)
    = Returned (7%Z, Some results)
    ∧ acceptable results.
Proof.
  destruct (fetch_data_accepts ascii_only sample_parser slow_link 7)
    as (result & Hret & Hsome & _).
  destruct result as [results|].
  - exists results. split; [exact Hret|].
    destruct (Hsome results eq_refl) as (attempt & _ & _ & Hacc & _). exact Hacc.
  - exfalso.
    assert (Hsome' : match fetch_outcome
                             (fetch_data ascii_only sample_parser slow_link 7) with
                     | Returned (_, Some _) => true
                     | _ => false
                     end = true) by (vm_compute; reflexivity).
    rewrite Hret in Hsome'. discriminate Hsome'.
Defined.

(** ** fetch_data: the pauses *)

Lemma backoff_pos (n : nat) : (0 < backoff n)%Q.
Proof. unfold backoff. by apply Qpower_0_lt. Qed.

Lemma backoff_succ (n : nat) : (backoff (S n) == (1 # 2) * backoff n)%Q.
Proof.
  unfold backoff. rewrite Nat2Z.inj_succ, <- Z.add_1_l.
  rewrite Qpower_plus by discriminate. reflexivity.
Qed.

Lemma backoff_decreasing (i j : nat) : (i < j)%nat → (backoff j < backoff i)%Q.
Proof.
  induction 1 as [|j _ IH].
  - rewrite backoff_succ. pose proof (backoff_pos i). lra.
  - rewrite backoff_succ. pose proof (backoff_pos j). lra.
Qed.

(** C8, as the code has it: the pause after attempt [k] lasts [0.5 ** k]
    seconds, so of two pauses of one call the later one is strictly the
    shorter. (An attempt left by [continue] is followed by no pause.) *)
Theorem backoff_shrinks (U : unicode_tables) (BeautifulSoup : pystr → document)
    (replies : nat → outcome response) (id : Z) (i j : nat) (di dj : Q) :
  (i < j)%nat →
  (i, di) ∈ fetch_slept (fetch_data U BeautifulSoup replies id) →
  (j, dj) ∈ fetch_slept (fetch_data U BeautifulSoup replies id) →
  di = ((1 # 2) ^ Z.of_nat i)%Q ∧ dj = ((1 # 2) ^ Z.of_nat j)%Q
  ∧ (dj < di)%Q ∧ (j < retry_times)%nat.
Proof.
  intros Hij Hi Hj. unfold fetch_data in *.
  apply fetch_loop_slept in Hi as [Hi|(_ & -> & _)]; [by apply not_elem_of_nil in Hi|].
  apply fetch_loop_slept in Hj as [Hj|(Hin & -> & _)]; [by apply not_elem_of_nil in Hj|].
  split; [done|]. split; [done|]. split; [by apply backoff_decreasing|].
  apply elem_of_seq in Hin. lia.
Qed.

Lemma backoff_shrinks_witness :
  fetch_slept (fetch_data ascii_only sample_parser dead_link 7)
  = [(0, 1%Q); (1, (1 # 2)%Q); (2, (1 # 4)%Q)]%nat
  ∧ ((1 # 2) < 1)%Q.
Proof.
  assert (Hlog : fetch_slept (fetch_data ascii_only sample_parser dead_link 7)
                 = [(0, 1%Q); (1, (1 # 2)%Q); (2, (1 # 4)%Q)]%nat)
    by (vm_compute; reflexivity).
  split; [exact Hlog|].
  refine (proj1 (proj2 (proj2
    (backoff_shrinks ascii_only sample_parser dead_link 7 0 1 1%Q (1 # 2)%Q _ _ _)))).
  - lia.
  - rewrite Hlog. apply list_elem_of_here.
  - rewrite Hlog. apply list_elem_of_further, list_elem_of_here.
Defined.

(** C8, as the claim has it, fails: when every attempt ends in a network
    error the pauses are 1, 1/2 and 1/4 seconds. *)
Lemma backoff_does_not_grow :
  ¬ (∀ (i j : nat) (di dj : Q),
       (i < j)%nat →
       (i, di) ∈ fetch_slept (fetch_data ascii_only sample_parser dead_link 7) →
       (j, dj) ∈ fetch_slept (fetch_data ascii_only sample_parser dead_link 7) →
       (di < dj)%Q).
Proof.
  intros Hgrow.
  assert (Hlog : fetch_slept (fetch_data ascii_only sample_parser dead_link 7)
                 = [(0, 1%Q); (1, (1 # 2)%Q); (2, (1 # 4)%Q)]%nat)
    by (vm_compute; reflexivity).
  rewrite Hlog in Hgrow.
  specialize (Hgrow 0%nat 1%nat 1%Q (1 # 2)%Q).
  assert (Hlt : (1 < 1 # 2)%Q).
  { apply Hgrow; [lia | apply list_elem_of_here|].
    apply list_elem_of_further, list_elem_of_here. }
  unfold Qlt in Hlt. simpl in Hlt. lia.
Qed.

(** ** The order of strings *)

Lemma str_le_cons (x y : N) (a b : pystr) :
  str_le (x :: a) (y :: b) ↔ x < y ∨ (x = y ∧ str_le a b).
Proof.
  unfold str_le. simpl.
  rewrite orb_true_iff, andb_true_iff, N.ltb_lt, N.eqb_eq. tauto.
Qed.

Lemma str_le_nil_l (b : pystr) : str_le [] b.
Proof. reflexivity. Qed.

Lemma str_le_nil_r (a : pystr) : str_le a [] → a = [].
Proof. destruct a; [done | discriminate]. Qed.

#[global] Instance str_le_total : Total str_le.
Proof.
  intros a. induction a as [|x a IH]; intros b; [left; apply str_le_nil_l|].
  destruct b as [|y b]; [right; apply str_le_nil_l|].
  rewrite !str_le_cons.
  destruct (N.lt_trichotomy x y) as [?|[->|?]]; [auto| |auto].
  destruct (IH b); auto.
Qed.

#[global] Instance str_le_trans : Transitive str_le.
Proof.
  intros a. induction a as [|x a IH]; intros b c Hab Hbc; [apply str_le_nil_l|].
  destruct b as [|y b]; [by apply str_le_nil_r in Hab|].
  destruct c as [|z c]; [by apply str_le_nil_r in Hbc|].
  apply str_le_cons in Hab, Hbc. apply str_le_cons.
  destruct Hab as [?|[-> ?]], Hbc as [?|[-> ?]]; [left; lia|auto|auto|].
  right. split; [done|]. by apply (IH b).
Qed.

#[global] Instance str_le_antisymm : AntiSymm (=) str_le.
Proof.
  intros a. induction a as [|x a IH]; intros b Hab Hba.
  - symmetry. by apply str_le_nil_r.
  - destruct b as [|y b]; [by apply str_le_nil_r in Hab|].
    apply str_le_cons in Hab, Hba.
    destruct Hab as [?|[-> ?]], Hba as [?|[? ?]]; try lia.
    f_equal. by apply IH.
Qed.


(** ** The collector *)

Lemma field_set_collected (records : list vehicle) (c : collector) (f : pystr) :
  f ∈ field_set (foldl collect c records)
  ↔ f ∈ field_set c ∨ ∃ r, r ∈ records ∧ is_Some (r !! f).
Proof.
  revert c. induction records as [|r records IH]; intros c; simpl.
  - split; [auto|]. intros [?|(r & Hr & _)]; [done|]. by apply not_elem_of_nil in Hr.
  - rewrite IH. simpl. rewrite elem_of_union, elem_of_dom. split.
    + intros [[?|?]|(r' & Hr' & ?)]; [auto| |].
      * right. exists r. split; [apply list_elem_of_here | done].
      * right. exists r'. split; [by apply list_elem_of_further | done].
    + intros [?|(r' & [->|Hr']%elem_of_cons & ?)]; [auto|auto|].
      right. eauto.
Qed.


(** ** Files *)

Lemma read_write_same (dir : directory) (fname : pystr) (f : csv_file) :
  read_file (write_file dir fname f) fname = Some f.
Proof.
  induction dir as [|[name old] dir IH]; simpl.
  - by rewrite decide_True.
  - destruct (decide (name = fname)) as [->|Hne]; simpl.
    + by rewrite decide_True.
    + by rewrite decide_False.
Qed.

Lemma read_write_other (dir : directory) (fname other : pystr) (f : csv_file) :
  other ≠ fname →
  read_file (write_file dir fname f) other = read_file dir other.
Proof.
  intros Hne. induction dir as [|[name old] dir IH]; simpl.
  - by rewrite decide_False.
  - destruct (decide (name = fname)) as [->|Hne']; simpl.
    + by rewrite !decide_False.
    + destruct (decide (name = other)); [done | exact IH].
Qed.

(** ** The write phase and the encoder *)

Lemma writerows_raises_only (rows : list (list pystr)) (e : exn) :
  (writerows rows).2 = Raised e → e = UnicodeEncodeError.
Proof.
  induction rows as [|row rows IH]; cbn [writerows]; [done|].
  destruct (record_encodable row); cbn [snd]; [exact IH|congruence].
Qed.

Lemma writerows_returned (rows : list (list pystr)) :
  (writerows rows).2 = Returned tt ↔ Forall (λ row, record_encodable row = true) rows.
Proof.
  induction rows as [|row rows IH]; cbn [writerows].
  - split; [constructor|done].
  - destruct (record_encodable row) eqn:Hrow; cbn [snd].
    + rewrite IH. split; [by constructor|by inversion 1].
    + split; [done|]. inversion 1; congruence.
Qed.

Lemma writerows_complete (rows : list (list pystr)) :
  (writerows rows).2 = Returned tt → (writerows rows).1 = rows.
Proof.
  induction rows as [|row rows IH]; cbn [writerows]; [done|].
  destruct (record_encodable row); cbn [fst snd]; [|done].
  intros Hrest. by rewrite IH.
Qed.

(** The records [writerows] leaves in the file are the first ones of its
    argument. *)
Lemma writerows_prefix (rows : list (list pystr)) :
  (writerows rows).1 `prefix_of` rows.
Proof.
  induction rows as [|row rows IH]; cbn [writerows]; [done|].
  destruct (record_encodable row); cbn [fst].
  - by apply prefix_cons.
  - apply prefix_nil.
Qed.

Lemma write_bucket_file_returned (fieldnames : list pystr) (data : list vehicle) :
  (write_bucket_file fieldnames data).2 = Returned tt →
  (write_bucket_file fieldnames data).1 = bucket_file fieldnames data.
Proof.
  unfold write_bucket_file, bucket_file.
  destruct (record_encodable fieldnames); cbn [fst snd]; [|done].
  intros Hrows. by rewrite writerows_complete.
Qed.

Lemma write_bucket_file_raises_only (fieldnames : list pystr) (data : list vehicle)
    (e : exn) :
  (write_bucket_file fieldnames data).2 = Raised e → e = UnicodeEncodeError.
Proof.
  unfold write_bucket_file.
  destruct (record_encodable fieldnames); cbn [snd]; [|congruence].
  apply writerows_raises_only.
Qed.

(** What one bucket's write leaves: the empty file when the header cannot
    be encoded, else a file with the byte-order mark, the header and the
    first records of the bucket. *)
Lemma write_bucket_file_shape (fieldnames : list pystr) (data : list vehicle) :
  let f := (write_bucket_file fieldnames data).1 in
  (record_encodable fieldnames = false ∧ f = empty_file)
  ∨ (record_encodable fieldnames = true
     ∧ csv_bom f = true ∧ csv_header f = fieldnames
     ∧ csv_rows f `prefix_of` (dict_to_list fieldnames <$> data)).
Proof.
  unfold write_bucket_file.
  destruct (record_encodable fieldnames); cbn [fst]; [right|left; done].
  cbn [csv_bom csv_header csv_rows]. split_and!; try done. apply writerows_prefix.
Qed.

Lemma write_all_raises_only (fieldnames : list pystr) (dir : directory)
    (buckets : list (pystr * list vehicle)) (e : exn) :
  (write_all fieldnames dir buckets).2 = Raised e → e = UnicodeEncodeError.
Proof.
  revert dir. induction buckets as [|[label data] buckets IH]; intros dir;
    cbn [write_all]; [done|].
  cbv zeta.
  destruct (write_bucket_file fieldnames data).2 as [[]|e'] eqn:Hout.
  - apply IH.
  - cbn [snd]. intros [= <-]. by apply write_bucket_file_raises_only in Hout.
Qed.

(** A write phase that ends without an exception leaves what the loop
    without the encoder would. *)
Lemma write_all_returned (fieldnames : list pystr) (dir : directory)
    (buckets : list (pystr * list vehicle)) :
  (write_all fieldnames dir buckets).2 = Returned tt →
  (write_all fieldnames dir buckets).1 = completed_write fieldnames dir buckets.
Proof.
  unfold completed_write. revert dir.
  induction buckets as [|[label data] buckets IH]; intros dir;
    cbn [write_all foldl]; [done|].
  cbv zeta.
  destruct (write_bucket_file fieldnames data).2 as [[]|e'] eqn:Hout.
  - intros Hrest. rewrite IH by done. unfold completed_bucket. cbn [fst snd].
    by rewrite write_bucket_file_returned.
  - done.
Qed.

(** The write phase ends without an exception exactly when the header
    and every record of every bucket can be encoded; with no bucket
    nothing is written. *)
Lemma write_all_returned_iff (fieldnames : list pystr) (dir : directory)
    (buckets : list (pystr * list vehicle)) :
  (write_all fieldnames dir buckets).2 = Returned tt
  ↔ buckets = []
    ∨ (record_encodable fieldnames = true
       ∧ Forall (λ bucket : pystr * list vehicle,
                   Forall (λ model, record_encodable (dict_to_list fieldnames model) = true)
                          bucket.2) buckets).
Proof.
  revert dir. induction buckets as [|[label data] buckets IH]; intros dir.
  - cbn [write_all snd]. split; [by left|done].
  - cbn [write_all]. cbv zeta.
    assert (Hone : (write_bucket_file fieldnames data).2 = Returned tt
                   ↔ record_encodable fieldnames = true
                     ∧ Forall (λ model, record_encodable (dict_to_list fieldnames model) = true)
                              data).
    { unfold write_bucket_file.
      destruct (record_encodable fieldnames); cbn [snd].
      - rewrite writerows_returned, Forall_fmap. by split; [|intros [_ ?]].
      - by split; [|intros [? _]]. }
    destruct (write_bucket_file fieldnames data).2 as [[]|e'] eqn:Hout.
    + apply proj1 in Hone. destruct (Hone eq_refl) as [Hhead Hdata].
      rewrite IH. split.
      * intros [->|[_ Hrest]]; right; (split; [done|]); by constructor.
      * intros [?|[_ Hall]]; [done|]. inversion Hall; subst. right. by split.
    + cbn [snd]. split; [done|]. intros [?|[Hhead Hall]]; [done|].
      inversion Hall as [|? ? Hdata _]; subst. apply Hone. by split.
Qed.

(** A path holds, after the write phase, what it held before or what the
    write of one of the buckets with that output name left. *)
Lemma write_all_files (fieldnames : list pystr) (dir : directory)
    (buckets : list (pystr * list vehicle)) (path : pystr) (f : csv_file) :
  read_file (write_all fieldnames dir buckets).1 path = Some f →
  read_file dir path = Some f
  ∨ ∃ label data, (label, data) ∈ buckets ∧ output_name label = path
      ∧ f = (write_bucket_file fieldnames data).1.
Proof.
  revert dir. induction buckets as [|[label data] buckets IH]; intros dir;
    cbn [write_all]; [auto|].
  cbv zeta.
  assert (Hhere : ∀ g,
            read_file (write_file dir (output_name label)
                         (write_bucket_file fieldnames data).1) path = Some g →
            read_file dir path = Some g
            ∨ (output_name label = path ∧ g = (write_bucket_file fieldnames data).1)).
  { intros g. destruct (decide (output_name label = path)) as [<-|Hne].
    - rewrite read_write_same. intros [= <-]. by right.
    - rewrite read_write_other by done. auto. }
  assert (Hfirst : ∀ g,
            read_file (write_file dir (output_name label)
                         (write_bucket_file fieldnames data).1) path = Some g →
            read_file dir path = Some g
            ∨ ∃ l d, (l, d) ∈ (label, data) :: buckets ∧ output_name l = path
                ∧ g = (write_bucket_file fieldnames d).1).
  { intros g [?|[Hname ->]]%Hhere; [by left|]. right. exists label, data.
    split; [apply list_elem_of_here | done]. }
  destruct (write_bucket_file fieldnames data).2 as [[]|e] eqn:Hout.
  - intros [Hold|(l & d & Hin & Hname & ->)]%IH.
    + by apply Hfirst.
    + right. exists l, d. split; [by apply list_elem_of_further | done].
  - cbn [fst]. apply Hfirst.
Qed.

(** A path that is the output name of none of the buckets is not
    touched, however the write phase ends. *)
Lemma write_all_untouched (fieldnames : list pystr) (dir : directory)
    (buckets : list (pystr * list vehicle)) (path : pystr) :
  (∀ bucket, bucket ∈ buckets → output_name bucket.1 ≠ path) →
  read_file (write_all fieldnames dir buckets).1 path = read_file dir path.
Proof.
  revert dir. induction buckets as [|[label data] buckets IH]; intros dir Hother;
    cbn [write_all]; [done|].
  cbv zeta.
  assert (Hne : output_name label ≠ path)
    by apply (Hother (label, data) (list_elem_of_here _ _)).
  destruct (write_bucket_file fieldnames data).2 as [[]|e] eqn:Hout.
  - rewrite IH.
    + by apply read_write_other.
    + intros b Hb. apply Hother. by apply list_elem_of_further.
  - cbn [fst]. by apply read_write_other.
Qed.

(** After the write phase, a path holds what the last bucket written to
    it put there. *)
Lemma completed_write_last (fieldnames : list pystr) (dir : directory)
    (before after : list (pystr * list vehicle)) (label : pystr) (data : list vehicle) :
  (∀ bucket, bucket ∈ after → output_name bucket.1 ≠ output_name label) →
  read_file (completed_write fieldnames dir (before ++ (label, data) :: after))
            (output_name label)
  = Some (bucket_file fieldnames data).
Proof.
  intros Hafter. unfold completed_write. rewrite foldl_app. simpl.
  generalize (foldl (completed_bucket fieldnames) dir before). intros dir'.
  assert (Hnow : read_file (completed_bucket fieldnames dir' (label, data)) (output_name label)
                 = Some (bucket_file fieldnames data)) by apply read_write_same.
  revert Hnow. generalize (completed_bucket fieldnames dir' (label, data)). clear dir'.
  induction after as [|bucket after IH]; intros dir' Hnow; simpl; [exact Hnow|].
  apply IH.
  - intros b Hb. apply Hafter. by apply list_elem_of_further.
  - unfold completed_bucket at 1. rewrite read_write_other; [exact Hnow|].
    intros Heq. by apply (Hafter bucket (list_elem_of_here _ _)).
Qed.


(** ** The column schema *)

Lemma other_fields_spec (order : list pystr) (f : pystr) :
  f ∈ other_fields order ↔ (f ∉ base_fields) ∧ f ∈ order.
Proof.
  unfold other_fields, sorted_strs.
  by rewrite merge_sort_Permutation, list_elem_of_filter.
Qed.




(** ** The file of the unknown energy types *)

Lemma output_name_unknown (label : pystr) :
  output_name label = unknown_csv ↔ goes_to_unknown label.
Proof.
  unfold output_name, goes_to_unknown.
  change unknown_csv with (car_data_ ++ unknown_tag ++ dot_csv).
  destruct (ENERGY_TYPES !! label) as [tag|] eqn:Htag.
  - change (default unknown_tag (Some tag)) with tag. split.
    + intros Heq. apply app_inv_head, app_inv_tail in Heq. subst tag. right.
      apply elem_of_list_to_map_2 in Htag.
      repeat (apply elem_of_cons in Htag as [[Hl Ht]%pair_equal_spec|Htag];
              [first [by vm_compute in Ht | exact Hl]|]).
      by apply not_elem_of_nil in Htag.
    + intros [?| ->]; [done|].
      assert (Hk : ENERGY_TYPES !! unknown_label = Some unknown_tag) by reflexivity.
      rewrite Hk in Htag. by injection Htag as <-.
  - split; [by left | done].
Qed.

(** C9, as the code has it: the buckets of all labels that [ENERGY_TYPES]
    does not know, and the bucket of the label 未知, are written to
    [car_data_unknown.csv], each write replacing the file; after a write
    phase that ends without an exception the file holds the rows of the
    last of these buckets and no other. *)
Theorem unknown_file_holds_last_bucket (fieldnames : list pystr) (dir : directory)
    (before after : list (pystr * list vehicle)) (label : pystr) (data : list vehicle) :
  goes_to_unknown label →
  (∀ bucket, bucket ∈ after → ¬ goes_to_unknown bucket.1) →
  output_name label = unknown_csv
  ∧ (∀ bucket, bucket ∈ before → goes_to_unknown bucket.1 →
       output_name bucket.1 = unknown_csv)
  ∧ ((write_all fieldnames dir (before ++ (label, data) :: after)).2 = Returned tt →
     read_file (write_all fieldnames dir (before ++ (label, data) :: after)).1 unknown_csv
     = Some {| csv_bom := true;
               csv_header := fieldnames;
               csv_rows := dict_to_list fieldnames <$> data |}).
Proof.
  intros Hlabel Hafter.
  apply output_name_unknown in Hlabel as Hname.
  split; [exact Hname|]. split.
  - intros bucket _ Hb. by apply output_name_unknown.
  - intros Hreturned. rewrite write_all_returned by done.
    rewrite <- Hname. apply completed_write_last.
    intros bucket Hb. rewrite Hname, output_name_unknown. by apply Hafter.
Qed.

Lemma unknown_file_holds_last_bucket_witness :
  read_file
    (write_all [k_ID; k_model] []
       ([(py "氢能", [hydrogen_car]); (py "纯电", [sample_electric])]
        ++ (py "柴油", [diesel_car]) :: [(py "汽油", [sample_fuel])])).1
    unknown_csv
  = Some {| csv_bom := true;
            csv_header := [k_ID; k_model];
            csv_rows := dict_to_list [k_ID; k_model] <$> [diesel_car] |}.
Proof.
  refine (proj2 (proj2 (unknown_file_holds_last_bucket
                          [k_ID; k_model] [] _ _ (py "柴油") [diesel_car] _ _)) _).
  - left. reflexivity.
  - intros bucket Hb. apply list_elem_of_singleton in Hb. subst bucket.
    unfold goes_to_unknown. simpl. intros [H|H]; vm_compute in H; discriminate.
  - vm_compute. reflexivity.
Defined.

(** C9, as the claim has it, fails: on a page with two labels that
    [ENERGY_TYPES] does not know and a third model without energy type,
    the file ends with the row of the third model; the rows of the last
    bucket with an unknown label are gone as well. *)
Lemma last_unrecognized_bucket_lost :
  let records := [hydrogen_car; diesel_car; unlabelled_car] in
  let fieldnames := all_fields (elements (field_set (collect_all records))) in
  let finished := main ascii_only three_column_parser manifest_1 None open_link in
  fetch_outcome (fetch_data ascii_only three_column_parser (open_link 1) 1)
  = Returned (1%Z, Some records)
  ∧ all_data (collect_all records)
    = [(py "氢能", [hydrogen_car]); (py "柴油", [diesel_car]);
       (unknown_label, [unlabelled_car])]
  ∧ ENERGY_TYPES !! py "氢能" = None
  ∧ ENERGY_TYPES !! py "柴油" = None
  ∧ ENERGY_TYPES !! unknown_label = Some unknown_tag
  ∧ run_outcome finished = Returned tt
  ∧ read_file (run_dir finished) unknown_csv
    = Some (bucket_file fieldnames [unlabelled_car])
  ∧ csv_rows (bucket_file fieldnames [unlabelled_car])
    ≠ csv_rows (bucket_file fieldnames [diesel_car]).
Proof.
  repeat split; try (vm_compute; reflexivity).
  intros Hrows. vm_compute in Hrows. discriminate.
Qed.

(** ** Reading rows *)

Lemma dict_row_lookup_None (fieldnames row : list pystr) (key : pystr) :
  key ∉ fieldnames → dict_row fieldnames row !! key = None.
Proof.
  intros Hkey. unfold dict_row.
  assert (Hrest : ∀ (names : list pystr) (d : reader_row),
            key ∉ names → d !! key = None →
            foldl (fun d key => <[key := None]> d) d names !! key = None).
  { induction names as [|name names IH]; intros d Hnames Hd; simpl; [done|].
    apply IH.
    - intros Hin. apply Hnames. by apply list_elem_of_further.
    - rewrite lookup_insert_ne; [done|].
      intros ->. apply Hnames, list_elem_of_here. }
  apply Hrest.
  - intros Hin. apply Hkey. by apply (subseteq_drop (length row) fieldnames).
  - assert (Hzip : ∀ (pairs : list (pystr * pystr)) (d : reader_row),
              key ∉ pairs.*1 → d !! key = None →
              foldl (fun d '(key, value) => <[key := Some value]> d) d pairs !! key
              = None).
    { induction pairs as [|[name value] pairs IH]; intros d Hnames Hd; simpl; [done|].
      apply IH.
      - intros Hin. apply Hnames. simpl. by apply list_elem_of_further.
      - rewrite lookup_insert_ne; [done|].
        intros ->. apply Hnames. simpl. apply list_elem_of_here. }
    apply Hzip; [|apply lookup_empty].
    intros Hin. apply Hkey.
    apply list_elem_of_fmap in Hin as ([name value] & -> & Hin).
    by apply elem_of_zip_l in Hin.
Qed.

Section ResolverFacts.

Context (U : unicode_tables).

(** A CSV file with a row but without an [ID] column, as read, makes the
    resolver raise [KeyError]. *)
Lemma subtract_file_missing_ID (unique_ids : gset Z) (fname : pystr) (f : csv_file) :
  endswith fname dot_csv = true →
  k_ID ∉ read_header utf_8 f →
  (∃ row, row ∈ csv_rows f ∧ row ≠ []) →
  subtract_file U unique_ids (fname, f) = Raised KeyError.
Proof.
  intros Hcsv Hheader (row & Hrow & Hne). unfold subtract_file. rewrite Hcsv.
  unfold DictReader.
  assert (Hin : row ∈ filter (fun row => row ≠ []) (csv_rows f))
    by (by apply list_elem_of_filter).
  destruct (filter (fun row => row ≠ []) (csv_rows f)) as [|first rest];
    [by apply not_elem_of_nil in Hin|].
  assert (Hfirst : add_done_row U ∅ (dict_row (read_header utf_8 f) first)
                   = Raised KeyError).
  { unfold add_done_row, getitem. by rewrite dict_row_lookup_None. }
  rewrite fmap_cons. cbn [for_each]. by rewrite Hfirst.
Qed.

End ResolverFacts.

(** A file of the write phase, read back with [utf-8], has no [ID]
    column: its first field name starts with the byte-order mark. *)
Lemma own_header_lacks_ID (order : list pystr) (data : list vehicle) :
  k_ID ∉ read_header utf_8 (bucket_file (all_fields order) data).
Proof.
  unfold read_header, bucket_file, all_fields, base_fields. simpl.
  intros [Heq|Hin]%elem_of_cons; [discriminate|].
  repeat (apply elem_of_cons in Hin as [Heq|Hin]; [discriminate|]).
  apply other_fields_spec in Hin as [Hbase _].
  apply Hbase. apply list_elem_of_here.
Qed.

Lemma own_output_raises (U : unicode_tables) (unique_ids : gset Z) (fname : pystr)
    (order : list pystr) (data : list vehicle) :
  endswith fname dot_csv = true →
  data ≠ [] →
  subtract_file U unique_ids (fname, bucket_file (all_fields order) data)
  = Raised KeyError.
Proof.
  intros Hcsv Hdata. apply subtract_file_missing_ID; [done|apply own_header_lacks_ID|].
  destruct data as [|model data]; [done|].
  exists (dict_to_list (all_fields order) model). split.
  - simpl. apply list_elem_of_here.
  - discriminate.
Qed.

(** ** Claims on the resolver *)

(** C10: a [.csv] file of the output directory that has a row and, as
    read, no [ID] column makes the scan of that file raise [KeyError];
    [get_unique_ids] then raises instead of returning, [main] ends with
    that exception before any fetch and leaves the directory as it was.
    The exception is the [KeyError] of that file whenever the manifest and
    the files listed before it were read without one. *)
Theorem missing_ID_column_aborts (U : unicode_tables) (BeautifulSoup : pystr → document)
    (manifest : csv_file) (net : Z → nat → outcome response)
    (before after : directory) (fname : pystr) (f : csv_file) :
  endswith fname dot_csv = true →
  k_ID ∉ read_header utf_8 f →
  (∃ row, row ∈ csv_rows f ∧ row ≠ []) →
  (∀ unique_ids, subtract_file U unique_ids (fname, f) = Raised KeyError)
  ∧ ∃ e, get_unique_ids U manifest (Some (before ++ (fname, f) :: after)) = Raised e
      ∧ main U BeautifulSoup manifest (Some (before ++ (fname, f) :: after)) net
        = {| run_outcome := Raised e;
             run_fetched := [];
             run_dir := before ++ (fname, f) :: after |}
      ∧ (∀ M M',
           for_each (DictReader utf_8 manifest) (add_manifest_row U) ∅ = Returned M →
           for_each before (subtract_file U) M = Returned M' →
           e = KeyError).
Proof.
  intros Hcsv Hheader Hrow.
  assert (Hfile : ∀ unique_ids, subtract_file U unique_ids (fname, f) = Raised KeyError).
  { intros unique_ids. by apply subtract_file_missing_ID. }
  split; [exact Hfile|].
  assert (Hget : ∃ e,
             get_unique_ids U manifest (Some (before ++ (fname, f) :: after)) = Raised e
             ∧ ∀ M M',
                 for_each (DictReader utf_8 manifest) (add_manifest_row U) ∅ = Returned M →
                 for_each before (subtract_file U) M = Returned M' →
                 e = KeyError).
  { unfold get_unique_ids.
    destruct (for_each (DictReader utf_8 manifest) (add_manifest_row U) ∅)
      as [M|e0]; simpl.
    - destruct (for_each_raises_at (subtract_file U) before (fname, f) after
                  KeyError Hfile M) as (e & -> & He).
      exists e. split; [done|]. intros M0 M' [= <-]. apply He.
    - exists e0. split; [done | discriminate]. }
  destruct Hget as (e & Hget & He). exists e. split; [exact Hget|]. split; [|exact He].
  unfold main. simpl. by rewrite Hget.
Qed.

Lemma missing_ID_column_aborts_witness :
  get_unique_ids ascii_only manifest_123 (Some [(py "notes.csv", notes_file)])
  = Raised KeyError.
Proof.
  destruct (missing_ID_column_aborts ascii_only sample_parser manifest_123 mixed_link
              [] [] (py "notes.csv") notes_file)
    as (_ & e & Hget & _ & He).
  - reflexivity.
  - compute_done.
  - exists [py "memo"]. split; [apply list_elem_of_here | discriminate].
  - transitivity (Raised (A:=list Z) e); [exact Hget|].
    f_equal. eapply He; reflexivity.
Defined.

(** C10, as the claim has it, fails: with such a file in the directory
    the exception is not always [KeyError]. A manifest row too short to
    reach the [id] column makes [int] raise [TypeError] before the
    directory is listed; a file listed earlier whose row is too short to
    reach its [ID] column raises [AttributeError]. *)
Lemma missing_ID_column_other_exceptions :
  endswith (py "notes.csv") dot_csv = true
  ∧ (k_ID ∉ read_header utf_8 notes_file)
  ∧ (∃ row, row ∈ csv_rows notes_file ∧ row ≠ [])
  ∧ get_unique_ids ascii_only manifest_short_row (Some [(py "notes.csv", notes_file)])
    = Raised TypeError
  ∧ run_outcome (main ascii_only sample_parser manifest_short_row
                      (Some [(py "notes.csv", notes_file)]) open_link)
    = Raised TypeError
  ∧ get_unique_ids ascii_only manifest_1
      (Some [(py "a.csv", done_short_row); (py "notes.csv", notes_file)])
    = Raised AttributeError
  ∧ run_outcome (main ascii_only sample_parser manifest_1
                      (Some [(py "a.csv", done_short_row); (py "notes.csv", notes_file)])
                      open_link)
    = Raised AttributeError.
Proof.
  split; [reflexivity|]. split; [compute_done|].
  split; [exists [py "memo"]; split; [apply list_elem_of_here | discriminate]|].
  repeat split; vm_compute; reflexivity.
Qed.

(** C4 at the failing input: a first run writes its two files; a second
    run over that directory raises [KeyError] in [get_unique_ids], where
    the claim has it return the identifiers 2 and 3. (Without the
    byte-order mark in the files it would.) *)
Theorem resume_after_own_output_raises :
  let first := main ascii_only sample_parser manifest_123 None mixed_link in
  get_unique_ids ascii_only manifest_123 None = Returned [1; 2; 3]%Z
  ∧ run_outcome first = Returned tt
  ∧ run_fetched first = [1; 2; 3]%Z
  ∧ (fst <$> run_dir first) = [py "car_data_electric.csv"; py "car_data_fuel.csv"]
  ∧ ((fun entry : pystr * csv_file => (csv_bom entry.2, take 1 <$> csv_rows entry.2))
       <$> run_dir first)
    = [(true, [[py "1"]]); (true, [[py "1"]])]
  ∧ get_unique_ids ascii_only manifest_123 (Some (run_dir first)) = Raised KeyError
  ∧ run_outcome (main ascii_only sample_parser manifest_123 (Some (run_dir first))
                      mixed_link)
    = Raised KeyError
  ∧ get_unique_ids ascii_only manifest_123 (Some (without_bom (run_dir first)))
    = Returned [2; 3]%Z.
Proof. vm_compute. repeat split. Qed.

(** The digits test also keeps a negative identifier from ever counting
    as done. *)
Lemma negative_id_never_done :
  get_unique_ids ascii_only manifest_minus_5 (Some [(py "car_data_fuel.csv", done_minus_5)])
  = Returned [(-5)%Z].
Proof. vm_compute. reflexivity. Qed.

(** When nothing is raised, the resolver returns, in increasing order and
    each once, the manifest identifiers that no [.csv] file marks as done;
    how the done identifiers are spread over the files plays no part. *)
Lemma subtract_files_difference (U : unicode_tables) (entries : directory)
    (M M' : gset Z) :
  for_each entries (subtract_file U) M = Returned M' →
  ∀ x, x ∈ M'
       ↔ x ∈ M ∧ ¬ ∃ fname f done, (fname, f) ∈ entries
                     ∧ endswith fname dot_csv = true
                     ∧ done_ids_of U f = Returned done ∧ x ∈ done.
Proof.
  revert M. induction entries as [|[fname f] entries IH]; intros M; simpl.
  - intros [= <-] x. split; [|tauto].
    intros Hx. split; [done|]. intros (? & ? & ? & Hin & _).
    by apply not_elem_of_nil in Hin.
  - intros (M1 & Hfile & Hrest)%bind_Returned x.
    rewrite (IH M1 Hrest x). clear IH Hrest.
    destruct (endswith fname dot_csv) eqn:Hcsv.
    + apply bind_Returned in Hfile as (done & Hdone & [= <-]).
      rewrite elem_of_difference. split.
      * intros [[HM Hnot] Hrest]. split; [done|].
        intros (fname' & f' & done' & [[= -> ->]|Hin]%elem_of_cons & Hc & Hd & Hx).
        -- unfold done_ids_of in Hd. rewrite Hdone in Hd. by injection Hd as <-.
        -- apply Hrest. eauto 10.
      * intros [HM Hnone]. split; [split; [done|]|].
        -- intros Hx. apply Hnone. exists fname, f, done.
           split; [apply list_elem_of_here | done].
        -- intros (fname' & f' & done' & Hin & Hrest). apply Hnone.
           exists fname', f', done'. split; [by apply list_elem_of_further | done].
    + injection Hfile as <-. split.
      * intros [HM Hrest]. split; [done|].
        intros (fname' & f' & done' & [[= -> ->]|Hin]%elem_of_cons & Hc & Hd & Hx).
        -- congruence.
        -- apply Hrest. eauto 10.
      * intros [HM Hnone]. split; [done|].
        intros (fname' & f' & done' & Hin & Hrest). apply Hnone.
        exists fname', f', done'. split; [by apply list_elem_of_further | done].
Qed.

(** Whenever [get_unique_ids] returns, its list is strictly increasing
    and holds exactly the identifiers read from the manifest that no
    [.csv] file of the output directory marks as done. *)
Lemma get_unique_ids_difference (U : unicode_tables) (manifest : csv_file)
    (entries : directory) (ids : list Z) :
  get_unique_ids U manifest (Some entries) = Returned ids →
  ∃ M, for_each (DictReader utf_8 manifest) (add_manifest_row U) ∅ = Returned M
       ∧ StronglySorted Z.le ids
       ∧ NoDup ids
       ∧ ∀ x, x ∈ ids
              ↔ x ∈ M ∧ ¬ ∃ fname f done, (fname, f) ∈ entries
                            ∧ endswith fname dot_csv = true
                            ∧ done_ids_of U f = Returned done ∧ x ∈ done.
Proof.
  unfold get_unique_ids.
  intros (M & HM & (M' & HM' & [= <-])%bind_Returned)%bind_Returned.
  exists M. split; [done|]. unfold sorted_ints. split; [|split].
  - apply StronglySorted_merge_sort; apply _.
  - rewrite merge_sort_Permutation. apply NoDup_elements.
  - intros x. rewrite merge_sort_Permutation, elem_of_elements.
    by apply subtract_files_difference.
Qed.

(** ** The run as a whole *)

Lemma scan_collects (U : unicode_tables) (BeautifulSoup : pystr → document)
    (net : Z → nat → outcome response) (ids : list Z) (c : collector) (done : list Z) :
  scan U BeautifulSoup net ids c done
  = (Returned (foldl collect c (fetched_records U BeautifulSoup net ids)), done ++ ids).
Proof.
  revert c done. induction ids as [|id ids IH]; intros c done.
  - simpl. by rewrite app_nil_r.
  - cbn [scan]. unfold fetched_records. rewrite bind_cons, foldl_app.
    destruct (fetch_loop_outcome U BeautifulSoup (net id) id (seq 0 retry_times) [])
      as (result & Hret & _).
    unfold fetch_data at 1 2. rewrite Hret.
    rewrite IH, <- (assoc_L (++) done [id] ids). f_equal. f_equal. f_equal.
    destruct result as [models|]; [|done].
    by destruct (decide (models = [])) as [->|].
Qed.

(** A run that finds identifiers to process fetches each of them and
    ends with the write phase over the collected records. *)
Lemma main_finalizes (U : unicode_tables) (BeautifulSoup : pystr → document)
    (manifest : csv_file) (output_dir : option directory)
    (net : Z → nat → outcome response) (ids : list Z) :
  get_unique_ids U manifest (Some (default [] output_dir)) = Returned ids →
  ids ≠ [] →
  let c := collect_all (fetched_records U BeautifulSoup net ids) in
  let written := write_all (all_fields (elements (field_set c)))
                   (default [] output_dir) (all_data c) in
  main U BeautifulSoup manifest output_dir net
  = {| run_outcome := written.2;
       run_fetched := ids;
       run_dir := written.1 |}.
Proof.
  intros Hids Hne. unfold main. cbv zeta. rewrite Hids.
  rewrite decide_False by done. by rewrite scan_collects.
Qed.

(** ** The built-in functions on samples *)

Example k_model_code_points : k_model = [0x578B; 0x53F7].
Proof. reflexivity. Qed.

Example py_int_samples :
  py_int ascii_only (py " 12 ") = Returned 12%Z
  ∧ py_int ascii_only (py "-0") = Returned 0%Z
  ∧ py_int ascii_only (py "1_000") = Returned 1000%Z
  ∧ py_int ascii_only (py "1__0") = Raised ValueError
  ∧ py_int ascii_only (py "_1") = Raised ValueError
  ∧ py_int ascii_only (py "1_") = Raised ValueError
  ∧ py_int ascii_only (py "") = Raised ValueError
  ∧ py_int ascii_only (py "+ 5") = Raised ValueError
  ∧ py_int ascii_only (py "-17") = Returned (-17)%Z
  ∧ py_str (-17) = py "-17"
  ∧ py_str 0 = py "0"
  ∧ py_str 1234567890 = py "1234567890"
  ∧ isdigit ascii_only (py "-5") = false
  ∧ isdigit ascii_only (py "") = false
  ∧ isdigit ascii_only (py "42") = true.
Proof. vm_compute. repeat split. Qed.

(** * Further properties of the code *)

(** ** Assignment by column position *)

(** A loop over [enumerate(xs)] that updates the record at each index. *)
Lemma for_each_enumerate_update {A} (g : A → vehicle → vehicle)
    (body : list vehicle → nat * A → outcome (list vehicle))
    (xs : list A) (models : list vehicle) :
  (∀ ms idx x m, ms !! idx = Some m →
     body ms (idx, x) = Returned (<[idx := g x m]> ms)) →
  (length xs ≤ length models)%nat →
  for_each (enumerate xs) body models
  = Returned (imap (fun i m => match xs !! i with
                               | Some x => g x m
                               | None => m
                               end) models).
Proof.
  intros Hbody. induction xs as [|x xs IH] using rev_ind; intros Hlen.
  - simpl. f_equal. apply list_eq. intros i. rewrite list_lookup_imap.
    destruct (models !! i); simpl; by rewrite ?lookup_nil.
  - rewrite length_app in Hlen. simpl in Hlen.
    unfold enumerate in *. rewrite imap_app, for_each_app, IH by lia. simpl.
    rewrite Nat.add_0_r.
    destruct (lookup_lt_is_Some_2 models (length xs)) as [m Hm]; [lia|].
    erewrite Hbody.
    2:{ rewrite list_lookup_imap, Hm. simpl.
        by rewrite (lookup_ge_None_2 xs (length xs)). }
    simpl. f_equal. apply list_eq. intros i.
    destruct (decide (i = length xs)) as [->|Hne].
    + rewrite list_lookup_insert_eq by (rewrite length_imap; by eapply lookup_lt_Some).
      rewrite list_lookup_imap, Hm. simpl.
      by rewrite lookup_app_r, Nat.sub_diag.
    + rewrite list_lookup_insert_ne by done.
      rewrite !list_lookup_imap. destruct (models !! i) as [mi|]; [simpl|done].
      destruct (decide (i < length xs)%nat).
      * by rewrite lookup_app_l.
      * rewrite (lookup_ge_None_2 xs i) by lia.
        rewrite lookup_ge_None_2; [done|]. rewrite length_app. simpl. lia.
Qed.

Lemma assign_cells_closed (key : pystr) (f : pystr → pystr) (cells : list pystr)
    (models : list vehicle) :
  assign_cells key f cells models
  = Returned (imap (fun i model => match cells !! i with
                                   | Some text => <[key := f text]> model
                                   | None => model
                                   end) models).
Proof.
  unfold assign_cells.
  rewrite (for_each_enumerate_update (fun text model => <[key := f text]> model)).
  - f_equal. apply imap_ext. intros i model Hi.
    apply lookup_lt_Some in Hi. by rewrite lookup_take_lt.
  - intros ms idx text m Hm. unfold setitem. by rewrite Hm.
  - rewrite length_take. lia.
Qed.

Lemma assign_names_closed (model_cols : list (option pystr)) (models : list vehicle) :
  (length model_cols ≤ length models)%nat →
  assign_names model_cols models
  = Returned (imap (fun i model => match model_cols !! i with
                                   | Some (Some text) =>
                                       <[k_model := strip_glyphs text]> model
                                   | _ => model
                                   end) models).
Proof.
  intros Hlen. unfold assign_names.
  rewrite (for_each_enumerate_update
             (fun name_tag model => match name_tag with
                                    | Some text => <[k_model := strip_glyphs text]> model
                                    | None => model
                                    end)).
  - reflexivity.
  - intros ms idx [text|] m Hm.
    + unfold setitem. by rewrite Hm.
    + by rewrite list_insert_id.
  - exact Hlen.
Qed.

(** Assignment by position (lines 78-79 and 88-90) never raises: the
    slice to [len(models)] keeps every index in range. Position [i] gets
    the value of cell [i] when the row has one and is left as it was
    otherwise; cells beyond the last model are ignored. *)
Theorem assign_cells_positionwise (key : pystr) (f : pystr → pystr)
    (cells : list pystr) (models : list vehicle) :
  ∃ models', assign_cells key f cells models = Returned models'
    ∧ length models' = length models
    ∧ ∀ i model, models !! i = Some model →
        models' !! i = Some (match cells !! i with
                             | Some text => <[key := f text]> model
                             | None => model
                             end).
Proof.
  rewrite assign_cells_closed. eexists. split; [done|]. split.
  - apply length_imap.
  - intros i model Hi. by rewrite list_lookup_imap, Hi.
Qed.

(** ** What makes the extractor give up *)

Lemma assign_section_outcome (models : list vehicle) (section : list table_row) :
  (Exists (fun row => row_label row = None) section
   ∧ assign_section models section = Raised AttributeError)
  ∨ (Forall (fun row => is_Some (row_label row)) section
     ∧ ∃ models', assign_section models section = Returned models').
Proof.
  unfold assign_section. revert models.
  induction section as [|row section IH]; intros models.
  - right. split; [constructor | by eexists].
  - cbn [for_each]. destruct (row_label row) as [label|] eqn:Hlabel.
    + cbn [attr_of mbind outcome_bind]. rewrite assign_cells_closed.
      cbn [mbind outcome_bind].
      destruct (IH (imap (fun i model => match row_cells row !! i with
                                         | Some text => <[label := strip_glyphs text]> model
                                         | None => model
                                         end) models))
        as [[Hex Hraise]|[Hall Hret]].
      * left. split; [by apply Exists_cons_tl | exact Hraise].
      * right. split; [|exact Hret]. constructor; [by rewrite Hlabel | exact Hall].
    + left. split; [by apply Exists_cons_hd | done].
Qed.

Lemma assign_sections_outcome (models : list vehicle) (sections : list (list table_row)) :
  (Exists (Exists (fun row => row_label row = None)) sections
   ∧ for_each sections assign_section models = Raised AttributeError)
  ∨ (Forall (Forall (fun row => is_Some (row_label row))) sections
     ∧ ∃ models', for_each sections assign_section models = Returned models').
Proof.
  revert models. induction sections as [|section sections IH]; intros models.
  - right. split; [constructor | by eexists].
  - cbn [for_each].
    destruct (assign_section_outcome models section)
      as [[Hex ->]|[Hall (m1 & ->)]]; cbn [mbind outcome_bind].
    + left. split; [by apply Exists_cons_hd | done].
    + destruct (IH m1) as [[Hex Hraise]|[Hall' Hret]].
      * left. split; [by apply Exists_cons_tl | exact Hraise].
      * right. split; [by constructor | exact Hret].
Qed.

Lemma malformed_sections (soup : document) :
  Exists (Exists (fun row => row_label row = None)) (doc_sections soup)
  ↔ ∃ section row, section ∈ doc_sections soup ∧ row ∈ section ∧ row_label row = None.
Proof.
  rewrite Exists_exists. split.
  - intros (section & Hsec & (row & Hrow & Hnone)%Exists_exists). eauto.
  - intros (section & row & Hsec & Hrow & Hnone). exists section. split; [done|].
    apply Exists_exists. eauto.
Qed.

(** The body of [parse_models_config] raises only [AttributeError], and
    does so exactly on a page that has model columns and whose price
    cell has no enclosing row or one of whose anchored rows has no label
    cell (lines 76 and 85); such a page yields no record at all, whatever
    else it holds. *)
Theorem extractor_gives_up_iff (U : unicode_tables) (soup : document) (e : exn) :
  parse_models_config_body U soup = Raised e
  ↔ e = AttributeError
    ∧ (∃ model_cols, doc_header soup = Some model_cols ∧ model_cols ≠ [])
    ∧ malformed soup.
Proof.
  unfold parse_models_config_body, malformed.
  destruct (doc_header soup) as [model_cols|].
  2:{ split; [discriminate | by intros (_ & (? & ? & _) & _)]. }
  destruct (decide (model_cols = [])) as [->|Hne].
  { split; [discriminate | by intros (_ & (? & [= <-] & ?) & _)]. }
  rewrite assign_names_closed by (by rewrite length_fmap).
  cbn [mbind outcome_bind]. unfold assign_prices.
  destruct (doc_price soup) as [[price_cells|]|].
  - cbn [attr_of mbind outcome_bind]. rewrite assign_cells_closed.
    cbn [mbind outcome_bind].
    match goal with |- context [for_each _ assign_section ?ms] =>
      destruct (assign_sections_outcome ms (doc_sections soup))
        as [[Hex ->]|[Hall (m3 & ->)]] end; cbn [mbind outcome_bind].
    + split.
      * intros [= <-]. split; [done|]. split; [eauto|]. right.
        by apply malformed_sections.
      * by intros (-> & _).
    + split; [discriminate|]. intros (_ & _ & [?|Hbad]); [done|].
      apply malformed_sections, Exists_exists in Hbad as (section & Hsec & Hbad).
      apply Exists_exists in Hbad as (row & Hrow & Hnone).
      rewrite Forall_forall in Hall. specialize (Hall section Hsec).
      rewrite Forall_forall in Hall. specialize (Hall row Hrow).
      rewrite Hnone in Hall. by destruct Hall.
  - cbn [attr_of mbind outcome_bind]. split.
    + intros [= <-]. eauto 10.
    + by intros (-> & _).
  - cbn [mbind outcome_bind].
    match goal with |- context [for_each _ assign_section ?ms] =>
      destruct (assign_sections_outcome ms (doc_sections soup))
        as [[Hex ->]|[Hall (m3 & ->)]] end; cbn [mbind outcome_bind].
    + split.
      * intros [= <-]. split; [done|]. split; [eauto|]. right.
        by apply malformed_sections.
      * by intros (-> & _).
    + split; [discriminate|]. intros (_ & _ & [?|Hbad]); [done|].
      apply malformed_sections, Exists_exists in Hbad as (section & Hsec & Hbad).
      apply Exists_exists in Hbad as (row & Hrow & Hnone).
      rewrite Forall_forall in Hall. specialize (Hall section Hsec).
      rewrite Forall_forall in Hall. specialize (Hall row Hrow).
      rewrite Hnone in Hall. by destruct Hall.
Qed.

(** ** The identity fields of a record *)

Lemma setitem_keyed (k : pystr) (models : list vehicle) (idx : nat)
    (key value : pystr) (models' : list vehicle) :
  keyed k models →
  setitem models idx key value = Returned models' →
  keyed k models'.
Proof.
  unfold keyed, setitem. intros Hall.
  destruct (models !! idx) as [model|] eqn:Hidx; [|discriminate].
  intros [= <-]. apply Forall_insert; [exact Hall|].
  destruct (decide (key = k)) as [->|Hne].
  - rewrite lookup_insert_eq. eauto.
  - rewrite lookup_insert_ne by done.
    exact (proj1 (Forall_lookup _ _) Hall idx model Hidx).
Qed.

Lemma assign_cells_keyed (k key : pystr) (f : pystr → pystr) (cells : list pystr)
    (models models' : list vehicle) :
  keyed k models →
  assign_cells key f cells models = Returned models' →
  keyed k models'.
Proof.
  intros Hk. unfold assign_cells. apply for_each_invariant; [|exact Hk].
  intros s [idx text] s' _ Hs. by apply setitem_keyed.
Qed.

Lemma parse_models_config_body_keyed (U : unicode_tables) (soup : document)
    (models : list vehicle) (k : pystr) :
  k = k_model ∨ k = k_price →
  parse_models_config_body U soup = Returned models →
  keyed k models.
Proof.
  intros Hk. unfold parse_models_config_body.
  destruct (doc_header soup) as [model_cols|]; [|intros [= <-]; constructor].
  destruct (decide (model_cols = [])); [intros [= <-]; constructor|].
  intros (m1 & H1 & (m2 & H2 & (m3 & H3 & [= <-])%bind_Returned)%bind_Returned)%bind_Returned.
  assert (Hseed : keyed k ((fun _ : option pystr =>
                   ({[ k_model := unknown_model; k_price := NA ]} : vehicle))
                   <$> model_cols)).
  { apply Forall_fmap, Forall_forall. intros col _. simpl.
    destruct Hk as [-> | ->].
    - rewrite lookup_insert_eq. eauto.
    - rewrite lookup_insert_ne by compute_done. rewrite lookup_singleton_eq. eauto. }
  assert (Hm1 : keyed k m1).
  { revert H1. unfold assign_names. apply for_each_invariant; [|exact Hseed].
    intros s [idx [text|]] s' _ Hs; [by apply setitem_keyed | by intros [= <-]]. }
  assert (Hm2 : keyed k m2).
  { revert H2. unfold assign_prices.
    destruct (doc_price soup) as [[price_cells|]|]; simpl;
      [by apply assign_cells_keyed | discriminate | by intros [= <-]]. }
  assert (Hm3 : keyed k m3).
  { revert H3. apply for_each_invariant; [|exact Hm2].
    intros s section s' _ Hs. unfold assign_section.
    apply for_each_invariant; [|exact Hs].
    intros s0 row s1 _ Hs0. destruct (row_label row) as [label|]; simpl; [|discriminate].
    by apply assign_cells_keyed. }
  apply Forall_fmap. eapply Forall_impl; [exact Hm3|].
  intros model Hmodel. simpl. by rewrite fill_specific_fields_keeps.
Qed.

(** Every record the extractor returns has a model name and a price:
    both are seeded at line 67 and no later step removes a key. *)
Theorem extracted_records_have_name_and_price (U : unicode_tables) (soup : document) :
  ∃ models, parse_models_config U soup = Returned models
    ∧ ∀ model, model ∈ models →
        is_Some (model !! k_model) ∧ is_Some (model !! k_price).
Proof.
  destruct (parse_models_config_cases U soup)
    as [(models & Hbody & ->)|(e & _ & ->)].
  - exists models. split; [done|]. intros model Hin.
    pose proof (parse_models_config_body_keyed U soup models k_model
                  (or_introl eq_refl) Hbody) as Hname.
    pose proof (parse_models_config_body_keyed U soup models k_price
                  (or_intror eq_refl) Hbody) as Hprice.
    unfold keyed in *. rewrite Forall_forall in Hname, Hprice. auto.
  - exists []. split; [done|]. intros model Hin. by apply not_elem_of_nil in Hin.
Qed.

(** ** What fetch_data hands over *)

(** The records [fetch_data] returns for an identifier are at least one,
    and each carries that identifier, written in decimal, under [ID],
    besides its model name and price. *)
Theorem fetched_records_are_tagged (U : unicode_tables)
    (BeautifulSoup : pystr → document) (replies : nat → outcome response)
    (id id' : Z) (results : list vehicle) :
  fetch_outcome (fetch_data U BeautifulSoup replies id) = Returned (id', Some results) →
  id' = id
  ∧ results ≠ []
  ∧ ∀ res, res ∈ results →
      res !! k_ID = Some (py_str id)
      ∧ is_Some (res !! k_model) ∧ is_Some (res !! k_price).
Proof.
  intros Hret. unfold fetch_data in Hret.
  destruct (fetch_loop_outcome U BeautifulSoup replies id (seq 0 retry_times) [])
    as (result & Hret' & Hresult).
  rewrite Hret' in Hret. injection Hret as <- ->.
  destruct Hresult as (_ & attempt & _ & _ & Hres & [Hne _] & _).
  split; [done|]. split; [exact Hne|].
  unfold attempt_results in Hres.
  destruct (replies attempt) as [response|]; [|discriminate].
  destruct (resp_ok response && str_in marker (resp_text response)); [|discriminate].
  destruct (parse_models_config U (BeautifulSoup (resp_text response)))
    as [parsed|] eqn:Hparse; [|discriminate].
  injection Hres as <-. intros res (raw & -> & Hraw)%list_elem_of_fmap.
  assert (Hkeys : is_Some (raw !! k_model) ∧ is_Some (raw !! k_price)).
  { destruct (parse_models_config_cases U (BeautifulSoup (resp_text response)))
      as [(models & Hbody & Hret)|(e & _ & Hret)];
      rewrite Hret in Hparse; injection Hparse as <-.
    - pose proof (parse_models_config_body_keyed U _ models k_model
                    (or_introl eq_refl) Hbody) as Hname.
      pose proof (parse_models_config_body_keyed U _ models k_price
                    (or_intror eq_refl) Hbody) as Hprice.
      unfold keyed in *. rewrite Forall_forall in Hname, Hprice. auto.
    - by apply not_elem_of_nil in Hraw. }
  split; [apply lookup_insert_eq|].
  rewrite !lookup_insert_ne by compute_done. exact Hkeys.
Qed.

Lemma fetched_records_are_tagged_witness :
  ∃ results,
    fetch_outcome (fetch_data ascii_only sample_parser slow_link 7)
    = Returned (7%Z, Some results)
    ∧ ∀ res, res ∈ results → res !! k_ID = Some (py "7").
Proof.
  assert (Hrun : ∃ results,
             fetch_outcome (fetch_data ascii_only sample_parser slow_link 7)
             = Returned (7%Z, Some results)).
  { destruct (fetch_outcome (fetch_data ascii_only sample_parser slow_link 7))
      as [[id' [results|]]|e] eqn:Hout.
    - assert (Hid : match fetch_outcome (fetch_data ascii_only sample_parser slow_link 7)
                    with Returned (i, _) => i | Raised _ => 0%Z end = 7%Z)
        by (vm_compute; reflexivity).
      rewrite Hout in Hid. subst id'. by exists results.
    - assert (Hsome : match fetch_outcome (fetch_data ascii_only sample_parser slow_link 7)
                      with Returned (_, Some _) => true | _ => false end = true)
        by (vm_compute; reflexivity).
      rewrite Hout in Hsome. discriminate Hsome.
    - assert (Hsome : match fetch_outcome (fetch_data ascii_only sample_parser slow_link 7)
                      with Returned (_, Some _) => true | _ => false end = true)
        by (vm_compute; reflexivity).
      rewrite Hout in Hsome. discriminate Hsome. }
  destruct Hrun as (results & Hrun). exists results. split; [exact Hrun|].
  intros res Hres.
  destruct (fetched_records_are_tagged ascii_only sample_parser slow_link 7 7 results Hrun)
    as (_ & _ & Htag).
  exact (proj1 (Htag res Hres)).
Defined.

(** ** The pauses of fetch_data *)

Lemma fetch_loop_schedule (U : unicode_tables) (BeautifulSoup : pystr → document)
    (replies : nat → outcome response) (id : Z) (attempts : list nat)
    (slept : list (nat * Q)) :
  ∃ pauses,
    fetch_slept (fetch_loop U BeautifulSoup replies id attempts slept) = slept ++ pauses
    ∧ pauses `sublist_of` ((fun attempt => (attempt, backoff attempt)) <$> attempts).
Proof.
  revert slept. induction attempts as [|attempt rest IH]; intros slept.
  - exists []. split; [by rewrite app_nil_r | done].
  - cbn [fetch_loop].
    destruct (try_except (attempt_body U BeautifulSoup (replies attempt) id) Exception
                         (fun e => Returned Next)) as [[|result|]|e].
    + destruct (IH slept) as (pauses & -> & Hsub).
      exists pauses. split; [done|]. rewrite fmap_cons. by apply sublist_cons.
    + exists []. split; [by rewrite app_nil_r | apply sublist_nil_l].
    + destruct (IH (slept ++ [(attempt, backoff attempt)])) as (pauses & -> & Hsub).
      exists ((attempt, backoff attempt) :: pauses).
      split; [by rewrite <- (assoc_L (++))|].
      rewrite fmap_cons. by apply sublist_skip.
    + exists []. split; [by rewrite app_nil_r | apply sublist_nil_l].
Qed.

Lemma total_sleep_sublist (some all : list (nat * Q)) :
  some `sublist_of` all →
  Forall (fun pause => (0 <= pause.2)%Q) all →
  (total_sleep some <= total_sleep all)%Q.
Proof.
  induction 1 as [|pause some all _ IH|pause some all _ IH]; intros Hpos; simpl.
  - apply Qle_refl.
  - apply Forall_cons in Hpos as [_ Hpos]. specialize (IH Hpos). lra.
  - apply Forall_cons in Hpos as [Hp Hpos]. specialize (IH Hpos). lra.
Qed.

Lemma falls_through_only_after_page (U : unicode_tables)
    (BeautifulSoup : pystr → document) (reply : outcome response) (id : Z) :
  try_except (attempt_body U BeautifulSoup reply id) Exception (fun e => Returned Next)
  = Returned Next →
  match reply with
  | Returned response =>
      resp_ok response = true ∧ str_in marker (resp_text response) = true
  | Raised _ => True
  end.
Proof.
  unfold attempt_body. destruct reply as [response|e]; [|done].
  cbn [mbind outcome_bind].
  destruct (resp_ok response); [|discriminate].
  destruct (str_in marker (resp_text response)); [done | discriminate].
Qed.

(** [fetch_data] pauses only along the schedule 1, 1/2, 1/4 seconds, for
    less than two seconds in all, and only after an attempt that raised
    or whose page had a good status and the marker text: an attempt
    turned down for its status or for the missing marker is left by
    [continue] (line 117) and the next request follows at once. *)
Theorem pauses_only_after_fallthrough (U : unicode_tables)
    (BeautifulSoup : pystr → document) (replies : nat → outcome response) (id : Z) :
  fetch_slept (fetch_data U BeautifulSoup replies id) `sublist_of` full_schedule
  ∧ (total_sleep (fetch_slept (fetch_data U BeautifulSoup replies id)) <= 7 # 4)%Q
  ∧ ∀ attempt delay,
      (attempt, delay) ∈ fetch_slept (fetch_data U BeautifulSoup replies id) →
      match replies attempt with
      | Returned response =>
          resp_ok response = true ∧ str_in marker (resp_text response) = true
      | Raised _ => True
      end.
Proof.
  unfold fetch_data.
  destruct (fetch_loop_schedule U BeautifulSoup replies id (seq 0 retry_times) [])
    as (pauses & Hlog & Hsub).
  rewrite app_nil_l in Hlog. split; [by rewrite Hlog|]. split.
  - rewrite Hlog.
    apply (Qle_trans _ (total_sleep full_schedule)).
    + apply total_sleep_sublist; [exact Hsub|].
      apply Forall_fmap, Forall_forall. intros attempt _. simpl.
      apply Qlt_le_weak, backoff_pos.
    + vm_compute. discriminate.
  - intros attempt delay Hin.
    apply fetch_loop_slept in Hin as [Hin|(_ & _ & Hnext)];
      [by apply not_elem_of_nil in Hin|].
    by apply (falls_through_only_after_page U BeautifulSoup _ id).
Qed.

(** ** The buckets *)

Lemma bucket_append_labels (buckets : list (pystr * list vehicle)) (energy : pystr)
    (model : vehicle) :
  (bucket_append buckets energy model).*1
  = if decide (energy ∈ buckets.*1) then buckets.*1 else buckets.*1 ++ [energy].
Proof.
  induction buckets as [|[label data] buckets IH].
  - destruct (decide (energy ∈ [].*1)) as [Hin|_]; [|done].
    by apply not_elem_of_nil in Hin.
  - cbn [bucket_append]. destruct (decide (label = energy)) as [->|Hne].
    + destruct (decide (energy ∈ ((energy, data) :: buckets).*1)) as [_|Hnin]; [done|].
      destruct Hnin. apply list_elem_of_here.
    + rewrite !fmap_cons, IH. cbn [fst].
      destruct (decide (energy ∈ buckets.*1)) as [Hin|Hnin];
        destruct (decide (energy ∈ label :: buckets.*1)) as [Hin'|Hnin']; try done.
      * destruct Hnin'. by apply list_elem_of_further.
      * apply elem_of_cons in Hin' as [?|?]; [by subst | done].
Qed.

Lemma bucket_append_elem (buckets : list (pystr * list vehicle)) (energy : pystr)
    (model : vehicle) (label : pystr) (data : list vehicle) :
  NoDup buckets.*1 →
  (label, data) ∈ bucket_append buckets energy model
  ↔ ((label, data) ∈ buckets ∧ label ≠ energy)
    ∨ (label = energy
       ∧ ∃ earlier, data = earlier ++ [model]
           ∧ ((energy, earlier) ∈ buckets ∨ (earlier = [] ∧ energy ∉ buckets.*1))).
Proof.
  induction buckets as [|[l0 d0] buckets IH]; intros Hnodup.
  - cbn [bucket_append]. rewrite list_elem_of_singleton. split.
    + intros [= -> ->]. right. split; [done|]. exists []. split; [done|].
      right. split; [done | apply not_elem_of_nil].
    + intros [[Hin _]|(Hlabel & earlier & Hdata & [Hin|[Hearlier _]])].
      * by apply not_elem_of_nil in Hin.
      * by apply not_elem_of_nil in Hin.
      * by subst.
  - rewrite fmap_cons in Hnodup. cbn [fst] in Hnodup.
    apply NoDup_cons in Hnodup as [Hl0 Hnodup]. specialize (IH Hnodup).
    assert (Hfresh : ∀ d, (l0, d) ∉ buckets).
    { intros d Hin. apply Hl0, list_elem_of_fmap. by exists (l0, d). }
    cbn [bucket_append]. rewrite fmap_cons. cbn [fst].
    destruct (decide (l0 = energy)) as [->|Hne].
    + rewrite elem_of_cons. split.
      * intros [Heq|Hin].
        -- injection Heq as -> ->. right. split; [done|]. exists d0.
           split; [done|]. left. apply list_elem_of_here.
        -- left. split; [by apply list_elem_of_further|].
           intros ->. by apply (Hfresh data).
      * intros [[Hin Hlabel]|(Hlabel & earlier & Hdata & Hcases)].
        -- apply elem_of_cons in Hin as [Heq|Hin]; [|by right].
           injection Heq as -> ->. done.
        -- subst label data. destruct Hcases as [Hin|[_ Hnew]].
           ++ apply elem_of_cons in Hin as [Heq|Hin].
              ** injection Heq as ->. by left.
              ** by destruct (Hfresh earlier).
           ++ destruct Hnew. apply list_elem_of_here.
    + rewrite elem_of_cons, IH. split.
      * intros [Heq|[[Hin Hlabel]|(Hlabel & earlier & Hdata & Hcases)]].
        -- injection Heq as -> ->. left. split; [apply list_elem_of_here | done].
        -- left. split; [by apply list_elem_of_further | done].
        -- right. split; [done|]. exists earlier. split; [done|].
           destruct Hcases as [Hin|[Hearlier Hnew]].
           ++ left. by apply list_elem_of_further.
           ++ right. split; [done|].
              intros [?|?]%elem_of_cons; [by subst | done].
      * intros [[Hin Hlabel]|(Hlabel & earlier & Hdata & Hcases)].
        -- apply elem_of_cons in Hin as [Heq|Hin]; [by left|].
           right. by left.
        -- right. right. split; [done|]. exists earlier. split; [done|].
           destruct Hcases as [Hin|[Hearlier Hnew]].
           ++ apply elem_of_cons in Hin as [Heq|Hin]; [|by left].
              injection Heq as Heq _. by destruct Hne.
           ++ right. split; [done|]. intros Hin. apply Hnew.
              by apply list_elem_of_further.
Qed.

Lemma collect_all_snoc (records : list vehicle) (model : vehicle) :
  collect_all (records ++ [model]) = collect (collect_all records) model.
Proof. unfold collect_all. by rewrite foldl_app. Qed.

Lemma buckets_invariant (records : list vehicle) :
  NoDup (all_data (collect_all records)).*1
  ∧ ∀ label data,
      (label, data) ∈ all_data (collect_all records)
      ↔ data ≠ [] ∧ data = filter (fun model => energy_label model = label) records.
Proof.
  induction records as [|model records [Hnodup IH]] using rev_ind.
  - split; [constructor|]. intros label data. simpl. split.
    + intros Hin. by apply not_elem_of_nil in Hin.
    + by intros [Hne ->].
  - rewrite collect_all_snoc. unfold collect at 1 2. cbn [all_data].
    change (default unknown_label (model !! k_energy)) with (energy_label model).
    split.
    + rewrite bucket_append_labels. destruct (decide _) as [|Hnew]; [done|].
      apply NoDup_app. split; [done|]. split; [|apply NoDup_singleton].
      intros label Hin ->%list_elem_of_singleton. contradiction.
    + intros label data. rewrite bucket_append_elem by done.
      rewrite filter_app, !IH. split.
      * intros [[[Hne ->] Hlabel]|(-> & earlier & -> & [Hin|[-> Hnew]])].
        -- split; [by destruct (filter _ records)|].
           rewrite filter_cons_False by done. by rewrite app_nil_r.
        -- apply IH in Hin as [_ ->]. split; [by destruct (filter _ records)|].
           by rewrite filter_cons_True.
        -- split; [done|]. rewrite filter_cons_True by done.
           destruct (filter (fun m => energy_label m = energy_label model) records)
             as [|first rest] eqn:Hfilter; [done|].
           destruct Hnew. apply list_elem_of_fmap.
           exists (energy_label model, first :: rest). split; [done|].
           apply IH. by rewrite Hfilter.
      * intros [Hne ->]. destruct (decide (label = energy_label model)) as [->|Hlabel].
        -- right. split; [done|]. rewrite filter_cons_True by done.
           exists (filter (fun m => energy_label m = energy_label model) records).
           split; [done|].
           destruct (filter (fun m => energy_label m = energy_label model) records)
             as [|first rest] eqn:Hfilter.
           ++ right. split; [done|].
              intros ([label data] & Hfst & Hin)%list_elem_of_fmap. simpl in Hfst.
              subst label. apply IH in Hin as [Hdata ->]. by rewrite Hfilter in Hdata.
           ++ left. apply IH. by rewrite Hfilter.
        -- left. rewrite filter_cons_False in Hne |- * by (intros Heq; by apply Hlabel).
           rewrite app_nil_r in Hne |- *. done.
Qed.

(** The collector files every record under its energy-type label, or
    under 未知 when it has none: the labels of the buckets are distinct,
    no bucket is empty, and a bucket holds exactly the records of its
    label, in the order they arrived. *)
Theorem buckets_group_by_label (records : list vehicle) :
  NoDup (all_data (collect_all records)).*1
  ∧ ∀ label data,
      (label, data) ∈ all_data (collect_all records)
      ↔ data ≠ []
        ∧ data = filter (fun model =>
                           default unknown_label (model !! k_energy) = label) records.
Proof. exact (buckets_invariant records). Qed.

(** ** Columns and rows *)

Lemma base_fields_NoDup : NoDup base_fields.
Proof. compute_done. Qed.

(** The header of a run has no column twice and has a column for every
    key of every record, so the writer's [extrasaction='ignore'] drops
    nothing; and the row written for a record has one value per column. *)
Theorem schema_covers_every_key (records : list vehicle) :
  let fieldnames := all_fields (elements (field_set (collect_all records))) in
  NoDup fieldnames
  ∧ (∀ model key, model ∈ records → is_Some (model !! key) → key ∈ fieldnames)
  ∧ (∀ model, length (dict_to_list fieldnames model) = length fieldnames).
Proof.
  cbv zeta. unfold all_fields. split; [|split].
  - apply NoDup_app. split; [apply base_fields_NoDup|]. split.
    + intros key Hbase Hother. apply other_fields_spec in Hother as [Hnot _].
      contradiction.
    + unfold other_fields, sorted_strs. rewrite merge_sort_Permutation.
      apply NoDup_filter, NoDup_elements.
  - intros model key Hmodel Hkey. apply elem_of_app.
    destruct (decide (key ∈ base_fields)) as [|Hnot]; [by left|]. right.
    apply other_fields_spec. split; [done|].
    apply elem_of_elements. unfold collect_all. apply field_set_collected. eauto.
  - intros model. unfold dict_to_list. apply length_fmap.
Qed.

(** ** Files of earlier runs *)

(** The write phase rewrites a file as a whole. When it ends without an
    exception, what the output directory held under the name of one of
    this run's buckets is replaced by the rows of (the last such) bucket,
    nothing of the old rows being merged in. However it ends, a file under
    any other name is left as it was, and a file it did write is empty or
    has the byte-order mark, the header and the first rows of one of the
    buckets of that name. *)
Theorem write_phase_replaces_whole_files (fieldnames : list pystr) (dir : directory)
    (buckets : list (pystr * list vehicle)) (path : pystr) :
  ((write_all fieldnames dir buckets).2 = Returned tt →
   ∀ before label data after,
     buckets = before ++ (label, data) :: after →
     output_name label = path →
     (∀ bucket, bucket ∈ after → output_name bucket.1 ≠ path) →
     read_file (write_all fieldnames dir buckets).1 path
     = Some {| csv_bom := true;
               csv_header := fieldnames;
               csv_rows := dict_to_list fieldnames <$> data |})
  ∧ ((∀ bucket, bucket ∈ buckets → output_name bucket.1 ≠ path) →
     read_file (write_all fieldnames dir buckets).1 path = read_file dir path)
  ∧ (∀ f, read_file (write_all fieldnames dir buckets).1 path = Some f →
       read_file dir path = Some f
       ∨ ∃ label data, (label, data) ∈ buckets ∧ output_name label = path
           ∧ (f = empty_file
              ∨ (csv_bom f = true ∧ csv_header f = fieldnames
                 ∧ csv_rows f `prefix_of` (dict_to_list fieldnames <$> data)))).
Proof.
  split; [|split].
  - intros Hreturned before label data after -> <- Hafter.
    rewrite write_all_returned by done. by apply completed_write_last.
  - apply write_all_untouched.
  - intros f [Hold|(label & data & Hin & Hname & ->)]%write_all_files; [by left|].
    right. exists label, data. split; [done|]. split; [done|].
    destruct (write_bucket_file_shape fieldnames data)
      as [[_ ->]|(_ & Hbom & Hheader & Hrows)]; [by left | by right].
Qed.

Lemma write_phase_replaces_whole_files_witness :
  read_file
    (write_all [k_ID; k_model] [(py "car_data_fuel.csv", notes_file);
                                (py "notes.csv", notes_file)]
       [(py "汽油", [sample_fuel])]).1
    (py "car_data_fuel.csv")
  = Some {| csv_bom := true;
            csv_header := [k_ID; k_model];
            csv_rows := dict_to_list [k_ID; k_model] <$> [sample_fuel] |}
  ∧ read_file
      (write_all [k_ID; k_model] [(py "car_data_fuel.csv", notes_file);
                                  (py "notes.csv", notes_file)]
         [(py "汽油", [sample_fuel])]).1
      (py "notes.csv")
    = Some notes_file.
Proof.
  destruct (write_phase_replaces_whole_files
              [k_ID; k_model]
              [(py "car_data_fuel.csv", notes_file); (py "notes.csv", notes_file)]
              [(py "汽油", [sample_fuel])] (py "car_data_fuel.csv")) as [Hreplaced _].
  destruct (write_phase_replaces_whole_files
              [k_ID; k_model]
              [(py "car_data_fuel.csv", notes_file); (py "notes.csv", notes_file)]
              [(py "汽油", [sample_fuel])] (py "notes.csv")) as (_ & Hkept & _).
  split.
  - apply (Hreplaced eq_refl [] (py "汽油") [sample_fuel] []); [reflexivity | reflexivity|].
    intros bucket Hin. by apply not_elem_of_nil in Hin.
  - rewrite Hkept; [reflexivity|].
    intros bucket Hin. apply list_elem_of_singleton in Hin. subst bucket.
    simpl. intros Heq. vm_compute in Heq. discriminate Heq.
Defined.

(** ** The run as a whole, continued *)

Lemma record_encodable_Forall (record : list pystr) :
  record_encodable record = true ↔ Forall (fun s => encodable s = true) record.
Proof.
  unfold record_encodable. induction record as [|s record IH]; simpl.
  - split; [constructor | done].
  - rewrite andb_true_iff, IH. split; [intros [??]; by constructor | by inversion 1].
Qed.

(** The records of a run are written without an exception when each of
    their keys and values can be encoded. *)
Lemma encodable_records_are_written (records : list vehicle) (dir : directory) :
  Forall vehicle_encodable records →
  (write_all (all_fields (elements (field_set (collect_all records)))) dir
     (all_data (collect_all records))).2 = Returned tt.
Proof.
  intros Hrecords. rewrite Forall_forall in Hrecords.
  apply write_all_returned_iff. right. split.
  - apply record_encodable_Forall. unfold all_fields. apply Forall_app. split.
    + by apply record_encodable_Forall.
    + apply Forall_forall. intros f [_ Hf]%other_fields_spec.
      apply elem_of_elements in Hf. unfold collect_all in Hf.
      apply field_set_collected in Hf as [Hf|(r & Hr & [value Hvalue])].
      * by apply not_elem_of_empty in Hf.
      * by destruct (Hrecords r Hr f value Hvalue).
  - apply Forall_forall. intros [label data] Hin. cbn [snd].
    apply buckets_invariant in Hin as [_ ->].
    apply Forall_forall. intros model [_ Hmodel]%list_elem_of_filter.
    apply record_encodable_Forall. unfold dict_to_list. apply Forall_fmap.
    apply Forall_forall. intros key _. cbn [compose].
    destruct (model !! key) as [value|] eqn:Hvalue; [|done].
    by destruct (Hrecords model Hmodel key value Hvalue).
Qed.

(** Once [get_unique_ids] has returned, no answer of the transport and no
    page makes the scan raise: [main] requests every pending identifier,
    each once and in increasing order. The only exception it can still
    end with is the [UnicodeEncodeError] of the write phase, and it ends
    without one when every key and value of the records fetched can be
    encoded. *)
Theorem main_fetches_the_batch (U : unicode_tables)
    (BeautifulSoup : pystr → document) (manifest : csv_file)
    (output_dir : option directory) (net : Z → nat → outcome response)
    (ids : list Z) :
  get_unique_ids U manifest (Some (default [] output_dir)) = Returned ids →
  run_fetched (main U BeautifulSoup manifest output_dir net) = ids
  ∧ StronglySorted Z.le ids
  ∧ NoDup ids
  ∧ (∀ e, run_outcome (main U BeautifulSoup manifest output_dir net) = Raised e →
          e = UnicodeEncodeError)
  ∧ (Forall vehicle_encodable (fetched_records U BeautifulSoup net ids) →
     run_outcome (main U BeautifulSoup manifest output_dir net) = Returned tt).
Proof.
  intros Hids.
  assert (Hsorted : StronglySorted Z.le ids ∧ NoDup ids).
  { pose proof Hids as Hget. unfold get_unique_ids in Hget.
    apply bind_Returned in Hget as (M & _ & Hget).
    apply bind_Returned in Hget as (M' & _ & [= <-]).
    unfold sorted_ints. split.
    - apply StronglySorted_merge_sort; apply _.
    - rewrite merge_sort_Permutation. apply NoDup_elements. }
  destruct Hsorted as [Hsorted Hnodup].
  destruct (decide (ids = [])) as [->|Hne].
  - unfold main. cbv zeta. rewrite Hids. cbn. by split_and!.
  - rewrite (main_finalizes U BeautifulSoup manifest output_dir net ids Hids Hne).
    cbn [run_outcome run_fetched]. split_and!; try done.
    + intros e. apply write_all_raises_only.
    + apply encodable_records_are_written.
Qed.

Lemma main_fetches_the_batch_witness :
  run_fetched (main ascii_only sample_parser manifest_123 None mixed_link)
  = [1; 2; 3]%Z
  ∧ run_outcome (main ascii_only sample_parser manifest_123 None mixed_link)
    = Returned tt.
Proof.
  destruct (main_fetches_the_batch ascii_only sample_parser manifest_123 None
              mixed_link [1; 2; 3]%Z) as (Hfetched & _ & _ & _ & Hout).
  - vm_compute. reflexivity.
  - split; [exact Hfetched|]. apply Hout. compute_done.
Defined.

(** ** The normaliser, continued *)

(** Normalising only adds: every key a record has keeps its value; a
    record whose energy type is missing or not in the catalog is left as
    it is; and normalising twice is normalising once. *)
Theorem fill_specific_fields_only_adds (model : vehicle) :
  model ⊆ fill_specific_fields model
  ∧ fill_specific_fields (fill_specific_fields model) = fill_specific_fields model
  ∧ (ENERGY_TYPE_MAP !! default NA (model !! k_energy) = None →
     fill_specific_fields model = model).
Proof.
  split; [|split].
  - apply map_subseteq_spec. intros k v Hk.
    rewrite fill_specific_fields_keeps; [done | eauto].
  - assert (Henergy : fill_specific_fields model !! k_energy = model !! k_energy).
    { rewrite fill_specific_fields_lookup.
      by rewrite decide_False by apply energy_key_not_specific. }
    apply map_eq. intros k.
    rewrite (fill_specific_fields_lookup (fill_specific_fields model)), Henergy.
    destruct (decide _) as [Hin|]; [|done].
    rewrite fill_specific_fields_lookup. by rewrite decide_True.
  - intros Hnone. unfold fill_specific_fields, get_energy_specific_fields.
    by rewrite Hnone.
Qed.

(** ** The manifest *)

Section ManifestFacts.

Context (U : unicode_tables).

Lemma py_int_raises_ValueError (s : pystr) (e : exn) :
  py_int U s = Raised e → e = ValueError.
Proof.
  unfold py_int.
  destruct (skip_spaces (int_char U <$> s)) as [|c s']; simpl.
  - by intros [= <-].
  - destruct (c =? 0x2B); [|destruct (c =? 0x2D)];
      destruct (int_digits _ _ _); by intros [= <-].
Qed.

(** What one manifest row does to the set. *)
Lemma add_manifest_row_cases (unique_ids : gset Z) (row : reader_row) :
  add_manifest_row U unique_ids row
  = match row !! k_id with
    | None => Returned unique_ids
    | Some None => Raised TypeError
    | Some (Some s) =>
        match py_int U s with
        | Returned n => Returned ({[ n ]} ∪ unique_ids)
        | Raised _ => Returned unique_ids
        end
    end.
Proof.
  unfold add_manifest_row, getitem.
  destruct (row !! k_id) as [[s|]|]; simpl; [|done|done].
  destruct (py_int U s) as [n|e] eqn:Hint; simpl; [done|].
  by rewrite (py_int_raises_ValueError s e Hint).
Qed.

Lemma manifest_scan_raises (rows : list reader_row) (unique_ids : gset Z) :
  (∃ row, row ∈ rows ∧ row !! k_id = Some None) →
  for_each rows (add_manifest_row U) unique_ids = Raised TypeError.
Proof.
  revert unique_ids. induction rows as [|row rows IH]; intros unique_ids (bad & Hin & Hbad).
  - by apply not_elem_of_nil in Hin.
  - cbn [for_each]. rewrite add_manifest_row_cases.
    destruct (row !! k_id) as [[s|]|] eqn:Hrow; [| done |].
    + assert (Hrest : ∃ row', row' ∈ rows ∧ row' !! k_id = Some None).
      { apply elem_of_cons in Hin as [->|Hin]; [congruence | eauto]. }
      destruct (py_int U s); simpl; by apply IH.
    + assert (Hrest : ∃ row', row' ∈ rows ∧ row' !! k_id = Some None).
      { apply elem_of_cons in Hin as [->|Hin]; [congruence | eauto]. }
      simpl. by apply IH.
Qed.

Lemma manifest_scan_returns (rows : list reader_row) (unique_ids : gset Z) :
  (∀ row, row ∈ rows → row !! k_id ≠ Some None) →
  ∃ M, for_each rows (add_manifest_row U) unique_ids = Returned M
       ∧ ∀ n, n ∈ M ↔ n ∈ unique_ids
                       ∨ ∃ row s, row ∈ rows ∧ row !! k_id = Some (Some s)
                                  ∧ py_int U s = Returned n.
Proof.
  revert unique_ids. induction rows as [|row rows IH]; intros unique_ids Hrows.
  - exists unique_ids. split; [done|]. intros n. split; [auto|].
    intros [?|(row & s & Hin & _)]; [done | by apply not_elem_of_nil in Hin].
  - cbn [for_each]. rewrite add_manifest_row_cases.
    assert (Htail : ∀ row', row' ∈ rows → row' !! k_id ≠ Some None).
    { intros row' Hin. apply Hrows. by apply list_elem_of_further. }
    destruct (row !! k_id) as [[s|]|] eqn:Hrow.
    + destruct (py_int U s) as [m|e] eqn:Hint; simpl.
      * destruct (IH ({[ m ]} ∪ unique_ids) Htail) as (M & -> & HM).
        exists M. split; [done|]. intros n. rewrite HM, elem_of_union, elem_of_singleton.
        split.
        -- intros [[->|?]|(row' & s' & Hin & Hs & Hn)]; [|auto|].
           ++ right. exists row, s. split; [apply list_elem_of_here | done].
           ++ right. exists row', s'. split; [by apply list_elem_of_further | done].
        -- intros [?|(row' & s' & [->|Hin]%elem_of_cons & Hs & Hn)]; [auto| |].
           ++ left. left. congruence.
           ++ right. eauto.
      * destruct (IH unique_ids Htail) as (M & -> & HM).
        exists M. split; [done|]. intros n. rewrite HM. split.
        -- intros [?|(row' & s' & Hin & Hs & Hn)]; [auto|].
           right. exists row', s'. split; [by apply list_elem_of_further | done].
        -- intros [?|(row' & s' & [->|Hin]%elem_of_cons & Hs & Hn)]; [auto| |].
           ++ congruence.
           ++ right. eauto.
    + by destruct (Hrows row (list_elem_of_here _ _)).
    + simpl. destruct (IH unique_ids Htail) as (M & -> & HM).
      exists M. split; [done|]. intros n. rewrite HM. split.
      * intros [?|(row' & s' & Hin & Hs & Hn)]; [auto|].
        right. exists row', s'. split; [by apply list_elem_of_further | done].
      * intros [?|(row' & s' & [->|Hin]%elem_of_cons & Hs & Hn)]; [auto| |].
        -- congruence.
        -- right. eauto.
Qed.

End ManifestFacts.

(** A manifest row without [id] column, or whose [id] is no integer
    literal, is passed over in silence: the identifiers read are those of
    the rows whose [id] converts. But a row too short to reach the [id]
    column holds [None] there, [int] raises [TypeError], which line 42
    does not catch: [get_unique_ids] raises it, whatever the output
    directory. *)
Theorem manifest_rows_skipped_or_fatal (U : unicode_tables) (manifest : csv_file)
    (output_dir : option directory) :
  ((∃ row, row ∈ DictReader utf_8 manifest ∧ row !! k_id = Some None) →
   get_unique_ids U manifest output_dir = Raised TypeError)
  ∧ ((∀ row, row ∈ DictReader utf_8 manifest → row !! k_id ≠ Some None) →
     ∃ M, for_each (DictReader utf_8 manifest) (add_manifest_row U) ∅ = Returned M
          ∧ ∀ n, n ∈ M ↔ ∃ row s, row ∈ DictReader utf_8 manifest
                                  ∧ row !! k_id = Some (Some s)
                                  ∧ py_int U s = Returned n).
Proof.
  split.
  - intros Hbad. unfold get_unique_ids.
    by rewrite (manifest_scan_raises U _ ∅ Hbad).
  - intros Hgood.
    destruct (manifest_scan_returns U (DictReader utf_8 manifest) ∅ Hgood)
      as (M & HM & Hspec).
    exists M. split; [exact HM|]. intros n. rewrite Hspec. split.
    + intros [Hempty|?]; [by apply not_elem_of_empty in Hempty | done].
    + by right.
Qed.

Lemma manifest_rows_skipped_or_fatal_witness :
  get_unique_ids ascii_only manifest_short_row None = Raised TypeError.
Proof.
  apply (proj1 (manifest_rows_skipped_or_fatal ascii_only manifest_short_row None)).
  exists (dict_row [py "name"; k_id] [py "b"]). split.
  - vm_compute. apply list_elem_of_further, list_elem_of_here.
  - vm_compute. reflexivity.
Defined.

(** ** The output directory as the resolver sees it *)

Section ListingFacts.

Context (U : unicode_tables).

(** Whether an entry makes the scan raise, and what it subtracts, does
    not depend on the identifiers left so far. *)
Lemma subtract_file_cases (entry : pystr * csv_file) :
  (∃ e, ∀ M, subtract_file U M entry = Raised e)
  ∨ (∃ done, ∀ M, subtract_file U M entry = Returned (M ∖ done)).
Proof.
  destruct entry as [fname f]. unfold subtract_file.
  destruct (endswith fname dot_csv).
  - destruct (for_each (DictReader utf_8 f) (add_done_row U) ∅) as [done|e].
    + right. exists done. done.
    + left. exists e. done.
  - right. exists ∅. intros M. by rewrite difference_empty_L.
Qed.

Lemma subtract_skips_other_files (entries : directory) (M : gset Z) :
  for_each entries (subtract_file U) M
  = for_each (csv_entries entries) (subtract_file U) M.
Proof.
  unfold csv_entries. revert M.
  induction entries as [|[fname f] entries IH]; intros M; [done|].
  destruct (endswith fname dot_csv) eqn:Hcsv.
  - rewrite filter_cons_True by done. cbn [for_each].
    destruct (subtract_file U M (fname, f)); simpl; [apply IH | done].
  - rewrite filter_cons_False by (simpl; congruence). cbn [for_each].
    assert (Hskip : subtract_file U M (fname, f) = Returned M)
      by (unfold subtract_file; by rewrite Hcsv).
    rewrite Hskip. simpl. apply IH.
Qed.

Lemma subtract_returns_iff (entries : directory) (M : gset Z) :
  (∃ M', for_each entries (subtract_file U) M = Returned M')
  ↔ Forall (fun entry => ∃ done, ∀ N, subtract_file U N entry = Returned (N ∖ done))
           entries.
Proof.
  revert M. induction entries as [|entry entries IH]; intros M.
  - split; [constructor | by eexists].
  - cbn [for_each]. destruct (subtract_file_cases entry) as [(e & He)|(done & Hdone)].
    + rewrite He. simpl. split; [by intros (? & ?)|].
      intros [(done & Hdone) _]%Forall_cons. specialize (He M).
      by rewrite Hdone in He.
    + rewrite Hdone. simpl. rewrite IH. split.
      * intros Hall. constructor; [by exists done | done].
      * by intros [_ Hall]%Forall_cons.
Qed.

Lemma subtract_permuted (entries entries' : directory) (M M1 : gset Z) :
  entries ≡ₚ entries' →
  for_each entries (subtract_file U) M = Returned M1 →
  for_each entries' (subtract_file U) M = Returned M1.
Proof.
  intros Hperm Hret.
  assert (Hall : ∃ M', for_each entries (subtract_file U) M = Returned M') by eauto.
  apply subtract_returns_iff in Hall. rewrite Hperm in Hall.
  apply (subtract_returns_iff entries' M) in Hall as (M2 & Hret').
  rewrite Hret'. f_equal. apply set_eq. intros x.
  rewrite (subtract_files_difference U entries' M M2 Hret' x).
  rewrite (subtract_files_difference U entries M M1 Hret x).
  split; intros [HM Hnone]; (split; [done|]);
    intros (fname & f & marked & Hin & Hrest); apply Hnone;
    exists fname, f, marked; (split; [|done]).
  - by rewrite <- Hperm.
  - by rewrite Hperm.
Qed.

End ListingFacts.

(** What [get_unique_ids] returns depends on the [.csv] entries of the
    output directory only, and not on the order in which [os.listdir]
    gives them: two listings with the same [.csv] entries, in any order
    and among any other entries, give the same list. *)
Theorem listing_order_is_irrelevant (U : unicode_tables) (manifest : csv_file)
    (entries entries' : directory) (ids : list Z) :
  csv_entries entries ≡ₚ csv_entries entries' →
  get_unique_ids U manifest (Some entries) = Returned ids →
  get_unique_ids U manifest (Some entries') = Returned ids.
Proof.
  intros Hperm. unfold get_unique_ids.
  destruct (for_each (DictReader utf_8 manifest) (add_manifest_row U) ∅)
    as [M|e]; simpl; [|done].
  rewrite (subtract_skips_other_files U entries),
          (subtract_skips_other_files U entries').
  destruct (for_each (csv_entries entries) (subtract_file U) M) as [M1|e] eqn:Hret;
    simpl; [|done].
  by rewrite (subtract_permuted U _ _ M M1 Hperm Hret).
Qed.

Lemma listing_order_is_irrelevant_witness :
  get_unique_ids ascii_only manifest_minus_5
    (Some [(py "readme.txt", notes_file); (py "car_data_fuel.csv", done_minus_5)])
  = Returned [(-5)%Z].
Proof.
  apply (listing_order_is_irrelevant ascii_only manifest_minus_5
           [(py "car_data_fuel.csv", done_minus_5)]).
  - vm_compute. reflexivity.
  - vm_compute. reflexivity.
Defined.

(** ** Identifiers written and read back *)

Lemma ascii_digit_facts (c : N) :
  ascii_digit c = true →
  is_ascii c = true ∧ ascii_space c = false
  ∧ (c =? 0x2B) = false ∧ (c =? 0x2D) = false.
Proof.
  unfold ascii_digit, is_ascii, ascii_space.
  rewrite andb_true_iff, !N.leb_le. intros [Hlo Hhi].
  split; [apply N.ltb_lt; lia|]. split; [|split; apply N.eqb_neq; lia].
  apply orb_false_iff. split; [|apply N.eqb_neq; lia].
  apply andb_false_iff. right. apply N.leb_gt. lia.
Qed.

Lemma uint_chars_digits (u : Decimal.uint) :
  Forall (fun c => ascii_digit c = true) (uint_chars u).
Proof. induction u; simpl; constructor; done. Qed.

Lemma uint_chars_nonempty (u : Decimal.uint) : u ≠ Decimal.Nil → uint_chars u ≠ [].
Proof. by destruct u. Qed.

Lemma int_digits_step (c : N) (s : pystr) (st : int_state) (acc : N) :
  ascii_digit c = true →
  int_digits (c :: s) st acc = int_digits s AfterDigit (10 * acc + (c - 0x30)).
Proof. intros Hc. cbn [int_digits]. by rewrite Hc. Qed.

Lemma int_digits_acc (u : Decimal.uint) (acc : positive) :
  int_digits (uint_chars u) AfterDigit (N.pos acc)
  = Some (N.pos (Pos.of_uint_acc u acc)).
Proof.
  revert acc. induction u as [|u IH|u IH|u IH|u IH|u IH|u IH|u IH|u IH|u IH|u IH];
    intros acc; [done|..];
    cbn [uint_chars Pos.of_uint_acc]; rewrite int_digits_step by done;
    rewrite <- IH; f_equal; lia.
Qed.

Lemma int_digits_of_uint (u : Decimal.uint) (st : int_state) :
  u ≠ Decimal.Nil → int_digits (uint_chars u) st 0 = Some (Pos.of_uint u).
Proof.
  revert st. induction u as [|u IH|u IH|u IH|u IH|u IH|u IH|u IH|u IH|u IH|u IH];
    intros st Hne; [done|..];
    cbn [uint_chars Pos.of_uint]; rewrite int_digits_step by done.
  - change (10 * 0 + (0x30 - 0x30)) with 0.
    destruct u; [done|..]; by apply IH.
  - apply (int_digits_acc u 1).
  - apply (int_digits_acc u 2).
  - apply (int_digits_acc u 3).
  - apply (int_digits_acc u 4).
  - apply (int_digits_acc u 5).
  - apply (int_digits_acc u 6).
  - apply (int_digits_acc u 7).
  - apply (int_digits_acc u 8).
  - apply (int_digits_acc u 9).
Qed.

Section RoundTrip.

Context (U : unicode_tables).

Lemma int_char_digits (s : pystr) :
  Forall (fun c => ascii_digit c = true) s → int_char U <$> s = s.
Proof.
  induction 1 as [|c s Hc _ IH]; [done|].
  rewrite fmap_cons, IH. f_equal. unfold int_char.
  by destruct (ascii_digit_facts c Hc) as (-> & _).
Qed.

Lemma py_int_digit_string (s : pystr) :
  s ≠ [] → Forall (fun c => ascii_digit c = true) s →
  py_int U s = match int_digits s AtStart 0 with
               | Some n => Returned (Z.of_N n)
               | None => Raised ValueError
               end.
Proof.
  intros Hne Hdigits. unfold py_int. rewrite (int_char_digits s Hdigits).
  destruct s as [|c s]; [done|]. apply Forall_cons in Hdigits as [Hc _].
  destruct (ascii_digit_facts c Hc) as (_ & Hspace & Hplus & Hminus).
  cbn [skip_spaces]. by rewrite Hspace, Hplus, Hminus.
Qed.

Lemma py_int_minus_digit_string (s : pystr) :
  Forall (fun c => ascii_digit c = true) s →
  py_int U (0x2D :: s) = match int_digits s AtStart 0 with
                         | Some n => Returned (- Z.of_N n)%Z
                         | None => Raised ValueError
                         end.
Proof.
  intros Hdigits. unfold py_int. rewrite fmap_cons, (int_char_digits s Hdigits).
  reflexivity.
Qed.

Lemma py_int_py_str (n : Z) : py_int U (py_str n) = Returned n.
Proof.
  destruct n as [|p|p]; [done|..]; unfold py_str.
  - rewrite py_int_digit_string;
      [|apply uint_chars_nonempty, Unsigned.to_uint_nonnil | apply uint_chars_digits].
    rewrite int_digits_of_uint by apply Unsigned.to_uint_nonnil.
    by rewrite Unsigned.of_to.
  - rewrite py_int_minus_digit_string by apply uint_chars_digits.
    rewrite int_digits_of_uint by apply Unsigned.to_uint_nonnil.
    by rewrite Unsigned.of_to.
Qed.

Lemma isdigit_py_str (n : Z) : isdigit U (py_str n) = bool_decide (0 ≤ n)%Z.
Proof.
  destruct n as [|p|p]; [done|..]; unfold py_str, isdigit.
  - rewrite bool_decide_eq_true_2
      by apply uint_chars_nonempty, Unsigned.to_uint_nonnil.
    rewrite (bool_decide_eq_true_2 (0 ≤ Z.pos p)%Z) by lia.
    apply forallb_forall. intros c Hc. unfold char_isdigit.
    pose proof (uint_chars_digits (Pos.to_uint p)) as Hall.
    rewrite List.Forall_forall in Hall. specialize (Hall c Hc).
    by destruct (ascii_digit_facts c Hall) as (-> & _).
  - rewrite (bool_decide_eq_false_2 (0 ≤ Z.neg p)%Z) by lia.
    apply andb_false_iff. right. reflexivity.
Qed.

Lemma add_done_row_py_str (done_ids : gset Z) (row : reader_row) (n : Z) :
  row !! k_ID = Some (Some (py_str n)) →
  add_done_row U done_ids row
  = Returned (if bool_decide (0 ≤ n)%Z then {[ n ]} ∪ done_ids else done_ids).
Proof.
  intros Hrow. unfold add_done_row, getitem. rewrite Hrow. simpl.
  rewrite isdigit_py_str. destruct (bool_decide (0 ≤ n)%Z); [|done].
  by rewrite py_int_py_str.
Qed.

End RoundTrip.

(** The identifier written by [str(id)] (line 123) reads back as [id]
    through [int]; but the test [isdigit] of line 49 lets it through only
    when [id] is not negative: a row whose [ID] cell is [str(n)] marks [n]
    as done exactly when [0 <= n]. *)
Theorem written_id_reads_back (U : unicode_tables) (n : Z) (done_ids : gset Z)
    (row : reader_row) :
  py_int U (py_str n) = Returned n
  ∧ isdigit U (py_str n) = bool_decide (0 ≤ n)%Z
  ∧ (row !! k_ID = Some (Some (py_str n)) →
     add_done_row U done_ids row
     = Returned (if bool_decide (0 ≤ n)%Z then {[ n ]} ∪ done_ids else done_ids)).
Proof.
  split; [apply py_int_py_str|]. split; [apply isdigit_py_str|].
  apply add_done_row_py_str.
Qed.

(** ** Resuming over readable files *)

Section ResumeFacts.

Context (U : unicode_tables).

Lemma done_rows_readable (rows : list reader_row) (acc : gset Z) :
  (∀ row, row ∈ rows → ∃ n, (0 ≤ n)%Z ∧ row !! k_ID = Some (Some (py_str n))) →
  ∃ marked, for_each rows (add_done_row U) acc = Returned marked
    ∧ ∀ x, x ∈ marked
           ↔ x ∈ acc ∨ ∃ row, row ∈ rows ∧ row !! k_ID = Some (Some (py_str x)).
Proof.
  revert acc. induction rows as [|row rows IH]; intros acc Hrows.
  - exists acc. split; [done|]. intros x. split; [auto|].
    intros [?|(row & Hin & _)]; [done | by apply not_elem_of_nil in Hin].
  - destruct (Hrows row (list_elem_of_here _ _)) as (n & Hn & Hrow).
    cbn [for_each]. rewrite (add_done_row_py_str U acc row n Hrow).
    rewrite bool_decide_eq_true_2 by done. simpl.
    destruct (IH ({[ n ]} ∪ acc)) as (marked & -> & Hmarked).
    { intros row' Hin. apply Hrows. by apply list_elem_of_further. }
    exists marked. split; [done|]. intros x.
    rewrite Hmarked, elem_of_union, elem_of_singleton. split.
    + intros [[->|?]|(row' & Hin & Hx)]; [|auto|].
      * right. exists row. split; [apply list_elem_of_here | done].
      * right. exists row'. split; [by apply list_elem_of_further | done].
    + intros [?|(row' & [->|Hin]%elem_of_cons & Hx)]; [auto| |].
      * left. left. rewrite Hrow in Hx. injection Hx as Hx.
        apply (f_equal (py_int U)) in Hx. rewrite !py_int_py_str in Hx.
        by injection Hx.
      * right. eauto.
Qed.

End ResumeFacts.

(** With files it can read, the resolver resumes as meant: when every
    row of every [.csv] file of the output directory has an [ID] cell
    holding a non-negative identifier as [str] writes it, [get_unique_ids]
    returns, in increasing order, exactly the manifest identifiers for
    which no such row exists, however the rows are spread over the
    files. *)
Theorem resumes_over_readable_files (U : unicode_tables) (manifest : csv_file)
    (entries : directory) (M : gset Z) :
  for_each (DictReader utf_8 manifest) (add_manifest_row U) ∅ = Returned M →
  (∀ fname f row,
     (fname, f) ∈ entries → endswith fname dot_csv = true →
     row ∈ DictReader utf_8 f →
     ∃ n, (0 ≤ n)%Z ∧ row !! k_ID = Some (Some (py_str n))) →
  ∃ ids, get_unique_ids U manifest (Some entries) = Returned ids
    ∧ StronglySorted Z.le ids
    ∧ ∀ x, x ∈ ids
           ↔ x ∈ M
             ∧ ¬ ∃ fname f row,
                   (fname, f) ∈ entries ∧ endswith fname dot_csv = true
                   ∧ row ∈ DictReader utf_8 f
                   ∧ row !! k_ID = Some (Some (py_str x)).
Proof.
  intros HM Hreadable.
  assert (Hfiles : ∀ fname f, (fname, f) ∈ entries → endswith fname dot_csv = true →
            ∃ marked, done_ids_of U f = Returned marked
              ∧ ∀ x, x ∈ marked
                     ↔ ∃ row, row ∈ DictReader utf_8 f
                              ∧ row !! k_ID = Some (Some (py_str x))).
  { intros fname f Hin Hcsv.
    destruct (done_rows_readable U (DictReader utf_8 f) ∅) as (marked & Hret & Hspec).
    { intros row Hrow. by apply (Hreadable fname f row). }
    exists marked. split; [exact Hret|]. intros x. rewrite Hspec. split.
    - intros [Hempty|?]; [by apply not_elem_of_empty in Hempty | done].
    - by right. }
  assert (Hscan : ∃ M', for_each entries (subtract_file U) M = Returned M').
  { apply subtract_returns_iff, Forall_forall. intros [fname f] Hin.
    unfold subtract_file. destruct (endswith fname dot_csv) eqn:Hcsv.
    - destruct (Hfiles fname f Hin Hcsv) as (marked & Hret & _).
      exists marked. intros N. unfold done_ids_of in Hret. by rewrite Hret.
    - exists ∅. intros N. by rewrite difference_empty_L. }
  destruct Hscan as (M' & HM').
  exists (sorted_ints (elements M')). split.
  { unfold get_unique_ids. rewrite HM. simpl. by rewrite HM'. }
  unfold sorted_ints. split; [apply StronglySorted_merge_sort; apply _|].
  intros x. rewrite merge_sort_Permutation, elem_of_elements.
  rewrite (subtract_files_difference U entries M M' HM' x).
  split; intros [Hx Hnone]; (split; [exact Hx|]).
  - intros (fname & f & row & Hin & Hcsv & Hrow & Hid). apply Hnone.
    destruct (Hfiles fname f Hin Hcsv) as (marked & Hret & Hspec).
    exists fname, f, marked. split; [done|]. split; [done|]. split; [done|].
    apply Hspec. eauto.
  - intros (fname & f & marked & Hin & Hcsv & Hret & Hmarked). apply Hnone.
    destruct (Hfiles fname f Hin Hcsv) as (marked' & Hret' & Hspec).
    rewrite Hret' in Hret. injection Hret as <-.
    apply Hspec in Hmarked as (row & Hrow & Hid).
    exists fname, f, row. done.
Qed.

Lemma resumes_over_readable_files_witness :
  ∃ ids,
    get_unique_ids ascii_only manifest_123 (Some [(py "car_data_fuel.csv", done_1)])
    = Returned ids
    ∧ ∀ x, x ∈ ids → x ≠ 1%Z.
Proof.
  destruct (resumes_over_readable_files ascii_only manifest_123
              [(py "car_data_fuel.csv", done_1)] {[ 1%Z; 2%Z; 3%Z ]})
    as (ids & Hret & _ & Hspec).
  - vm_compute. reflexivity.
  - intros fname f row Hin _ Hrow.
    apply list_elem_of_singleton in Hin. injection Hin as -> ->.
    exists 1%Z. split; [lia|].
    vm_compute in Hrow. apply list_elem_of_singleton in Hrow. subst row.
    vm_compute. reflexivity.
  - exists ids. split; [exact Hret|]. intros x Hx ->.
    apply Hspec in Hx as [_ Hnone]. apply Hnone.
    exists (py "car_data_fuel.csv"), done_1, (dict_row [k_ID; k_model] [py "1"; py "M"]).
    split; [apply list_elem_of_here|]. split; [reflexivity|].
    split; [vm_compute; apply list_elem_of_here | vm_compute; reflexivity].
Defined.

(** ** After a run that wrote something *)

Lemma write_file_entries (dir : directory) (fname : pystr) (f : csv_file)
    (entry : pystr * csv_file) :
  entry ∈ write_file dir fname f → entry ∈ dir ∨ entry = (fname, f).
Proof.
  induction dir as [|[name old] dir IH]; cbn [write_file].
  - intros ->%list_elem_of_singleton. by right.
  - destruct (decide (name = fname)) as [->|Hne].
    + intros [->|Hin]%elem_of_cons; [by right|]. left. by apply list_elem_of_further.
    + intros [->|Hin]%elem_of_cons; [left; apply list_elem_of_here|].
      destruct (IH Hin) as [?|?]; [left; by apply list_elem_of_further | by right].
Qed.

Lemma write_file_length (dir : directory) (fname : pystr) (f : csv_file) :
  (length dir ≤ length (write_file dir fname f))%nat
  ∧ (0 < length (write_file dir fname f))%nat.
Proof.
  induction dir as [|[name old] dir [IH _]]; cbn [write_file]; [simpl; lia|].
  destruct (decide (name = fname)); simpl; lia.
Qed.

Lemma completed_write_entries (fieldnames : list pystr) (dir : directory)
    (buckets : list (pystr * list vehicle)) (entry : pystr * csv_file) :
  entry ∈ completed_write fieldnames dir buckets →
  entry ∈ dir
  ∨ ∃ label data, (label, data) ∈ buckets
      ∧ entry = (output_name label, bucket_file fieldnames data).
Proof.
  unfold completed_write. revert dir.
  induction buckets as [|[label data] buckets IH]; intros dir; cbn [foldl]; [auto|].
  intros [Hin|(l & d & Hb & ->)]%IH.
  - unfold completed_bucket in Hin. apply write_file_entries in Hin as [?| ->]; [auto|].
    right. exists label, data. split; [apply list_elem_of_here | done].
  - right. exists l, d. split; [by apply list_elem_of_further | done].
Qed.

Lemma completed_write_length (fieldnames : list pystr) (dir : directory)
    (buckets : list (pystr * list vehicle)) :
  (length dir ≤ length (completed_write fieldnames dir buckets))%nat.
Proof.
  unfold completed_write. revert dir.
  induction buckets as [|bucket buckets IH]; intros dir; cbn [foldl]; [done|].
  etransitivity; [|apply IH]. unfold completed_bucket. apply write_file_length.
Qed.

Lemma endswith_output_name (label : pystr) :
  endswith (output_name label) dot_csv = true.
Proof.
  unfold endswith, output_name. apply bool_decide_eq_true.
  rewrite (assoc_L (++)). by apply suffix_app_r.
Qed.

(** A first run that collected at least one record and ended without an
    exception leaves an output directory over which every later run stops
    in [get_unique_ids] with [KeyError], before any fetch: the files are
    written with a byte-order mark (line 163) that the reader (line 48)
    takes for part of the first column name. *)
Theorem second_run_aborts (U : unicode_tables) (BeautifulSoup : pystr → document)
    (manifest : csv_file) (net net' : Z → nat → outcome response) (ids : list Z) :
  get_unique_ids U manifest (Some []) = Returned ids →
  fetched_records U BeautifulSoup net ids ≠ [] →
  run_outcome (main U BeautifulSoup manifest None net) = Returned tt →
  let left_behind := run_dir (main U BeautifulSoup manifest None net) in
  get_unique_ids U manifest (Some left_behind) = Raised KeyError
  ∧ main U BeautifulSoup manifest (Some left_behind) net'
    = {| run_outcome := Raised KeyError; run_fetched := []; run_dir := left_behind |}.
Proof.
  intros Hids Hrecords Hreturned. cbv zeta.
  assert (Hne : ids ≠ []) by (intros ->; by apply Hrecords).
  rewrite (main_finalizes U BeautifulSoup manifest None net ids Hids Hne) in Hreturned |- *.
  cbn [run_outcome run_dir default from_option id] in Hreturned |- *.
  rewrite (write_all_returned _ _ _ Hreturned). clear Hreturned.
  set (records := fetched_records U BeautifulSoup net ids) in *.
  set (fieldnames := elements (field_set (collect_all records))).
  destruct (buckets_invariant records) as [_ Hbuckets].
  assert (Hsome : all_data (collect_all records) ≠ []).
  { destruct records as [|model records'] eqn:Hrec; [done|].
    intros Hnil.
    assert (Hin : (energy_label model,
                   filter (fun r => energy_label r = energy_label model)
                          (model :: records'))
                  ∈ all_data (collect_all (model :: records'))).
    { apply Hbuckets. split; [|done]. by rewrite filter_cons_True. }
    rewrite Hnil in Hin. by apply not_elem_of_nil in Hin. }
  destruct (completed_write (all_fields fieldnames) [] (all_data (collect_all records)))
    as [|entry rest] eqn:Hdir.
  { pose proof (completed_write_length (all_fields fieldnames) []
                  (all_data (collect_all records))) as Hlen.
    destruct (all_data (collect_all records)) as [|bucket buckets]; [done|].
    unfold completed_write in Hdir, Hlen. cbn [foldl] in Hdir.
    pose proof (completed_write_length (all_fields fieldnames)
                  (completed_bucket (all_fields fieldnames) [] bucket) buckets) as Hlen'.
    unfold completed_write in Hlen'. rewrite Hdir in Hlen'.
    unfold completed_bucket in Hlen'.
    pose proof (write_file_length [] (output_name bucket.1)
                  (bucket_file (all_fields fieldnames) bucket.2)) as [_ Hpos].
    simpl in Hlen'. lia. }
  assert (Hentry : entry ∈ completed_write (all_fields fieldnames) []
                             (all_data (collect_all records)))
    by (rewrite Hdir; apply list_elem_of_here).
  apply completed_write_entries in Hentry as [Hin|(label & data & Hbucket & ->)];
    [by apply not_elem_of_nil in Hin|].
  apply Hbuckets in Hbucket as [Hdata _].
  assert (Hraise : ∀ M, subtract_file U M (output_name label,
                                           bucket_file (all_fields fieldnames) data)
                        = Raised KeyError).
  { intros M. apply own_output_raises; [apply endswith_output_name | exact Hdata]. }
  assert (Hget : get_unique_ids U manifest
                   (Some ((output_name label,
                           bucket_file (all_fields fieldnames) data) :: rest))
                 = Raised KeyError).
  { unfold get_unique_ids in Hids |- *.
    apply bind_Returned in Hids as (M & -> & _).
    cbn [mbind outcome_bind for_each]. by rewrite Hraise. }
  split; [exact Hget|].
  unfold main. cbn [default from_option id]. by rewrite Hget.
Qed.

Lemma second_run_aborts_witness :
  get_unique_ids ascii_only manifest_1
    (Some (run_dir (main ascii_only three_column_parser manifest_1 None open_link)))
  = Raised KeyError.
Proof.
  refine (proj1 (second_run_aborts ascii_only three_column_parser manifest_1
                   open_link open_link [1%Z] _ _ _)).
  - vm_compute. reflexivity.
  - intros Hnil. apply (f_equal length) in Hnil. vm_compute in Hnil. discriminate Hnil.
  - vm_compute. reflexivity.
Defined.

(** ** The price text *)

Lemma re_sub_class_filter (cls : N → bool) (s : pystr) :
  re_sub_class cls [] s = filter (fun c => cls c = false) s.
Proof.
  unfold re_sub_class. induction s as [|c s IH]; [done|].
  rewrite bind_cons, IH. destruct (cls c) eqn:Hc.
  - rewrite filter_cons_False; [done | congruence].
  - by rewrite filter_cons_True.
Qed.

(** The price stored for a price cell (line 79) is what is left of the
    cell's text after dropping every character but decimal digits, the
    dot and 万, followed by one more 万; so a text that has its 万 already
    ends up with two. Column [i] gets the price of cell [i]; columns
    without a cell keep "N/A". *)
Theorem price_text_shape (U : unicode_tables) (text : pystr) :
  price_text U text
  = filter (fun c => re_digit U c = true ∨ c = 0x2E ∨ c = 0x4E07) text ++ [0x4E07]
  ∧ length (filter (fun c => c = 0x4E07) (price_text U text))
    = S (length (filter (fun c => c = 0x4E07) text))
  ∧ ∀ cells models,
      assign_prices U (Some (Some cells)) models
      = Returned (imap (fun i model => match cells !! i with
                                       | Some cell => <[k_price := price_text U cell]> model
                                       | None => model
                                       end) models).
Proof.
  assert (Hkeep : ∀ s : pystr,
            filter (fun c => not_price_char U c = false) s
            = filter (fun c => re_digit U c = true ∨ c = 0x2E ∨ c = 0x4E07) s).
  { intros s. apply list_filter_iff. intros c. unfold not_price_char.
    rewrite negb_false_iff, !orb_true_iff, !N.eqb_eq. tauto. }
  assert (Hshape : price_text U text
            = filter (fun c => re_digit U c = true ∨ c = 0x2E ∨ c = 0x4E07) text
              ++ [0x4E07]).
  { unfold price_text. by rewrite re_sub_class_filter, Hkeep. }
  split; [exact Hshape|]. split.
  - rewrite Hshape, filter_app, length_app. simpl.
    rewrite Nat.add_1_r. f_equal. f_equal. clear Hshape.
    induction text as [|c text IH]; [done|].
    destruct (decide (c = 0x4E07)) as [->|Hne].
    + rewrite (filter_cons_True (fun c => re_digit U c = true ∨ c = 0x2E ∨ c = 0x4E07))
        by auto.
      rewrite !(filter_cons_True (fun c => c = 0x4E07)) by done. by rewrite IH.
    + rewrite (filter_cons_False (fun c => c = 0x4E07) c text) by done.
      destruct (decide (re_digit U c = true ∨ c = 0x2E ∨ c = 0x4E07)).
      * rewrite (filter_cons_True (fun c => re_digit U c = true ∨ c = 0x2E ∨ c = 0x4E07))
          by done.
        by rewrite filter_cons_False.
      * by rewrite filter_cons_False.
  - intros cells models. unfold assign_prices. cbn [attr_of mbind outcome_bind].
    apply assign_cells_closed.
Qed.

(** ** More on the resolver and the extractor *)

Lemma get_unique_ids_difference_witness :
  ∃ M, for_each (DictReader utf_8 manifest_123) (add_manifest_row ascii_only) ∅
       = Returned M
       ∧ NoDup [2; 3]%Z.
Proof.
  destruct (get_unique_ids_difference ascii_only manifest_123
              [(py "car_data_fuel.csv", done_1)] [2; 3]%Z)
    as (M & HM & _ & Hnodup & _).
  - vm_compute. reflexivity.
  - exists M. by split.
Defined.

(** On a page that has only the header block, the records are the
    seeded ones: the model name is the cleaned text of the column's name
    element, the sentinel 未知车型 for a column without one, and the price
    is the sentinel "N/A"; no other key is set. *)
Theorem header_only_page_gives_sentinels (U : unicode_tables) (soup : document)
    (model_cols : list (option pystr)) :
  doc_header soup = Some model_cols →
  doc_price soup = None →
  doc_sections soup = [] →
  parse_models_config U soup
  = Returned ((fun name_tag : option pystr =>
                 ({[ k_model := match name_tag with
                                | Some text => strip_glyphs text
                                | None => unknown_model
                                end;
                     k_price := NA ]} : vehicle)) <$> model_cols).
Proof.
  intros Hheader Hprice Hsections.
  unfold parse_models_config, parse_models_config_body.
  rewrite Hheader, Hprice, Hsections.
  destruct (decide (model_cols = [])) as [->|Hne]; [done|].
  rewrite assign_names_closed by (by rewrite length_fmap).
  cbn [mbind outcome_bind assign_prices for_each try_except]. f_equal.
  apply list_eq. intros i.
  rewrite !list_lookup_fmap, list_lookup_imap, list_lookup_fmap.
  destruct (model_cols !! i) as [[text|]|]; [| |done]; simpl; f_equal.
Qed.

Lemma header_only_page_gives_sentinels_witness :
  parse_models_config ascii_only header_only_page
  = Returned [ {[ k_model := py "Model S"; k_price := NA ]};
               {[ k_model := unknown_model; k_price := NA ]} ].
Proof.
  apply (header_only_page_gives_sentinels ascii_only header_only_page
           [Some (py "○Model S"); None]); reflexivity.
Defined.
